(** * Collective variables on top of a molecular-dynamics engine

    A shallow embedding of [cvlib/cvlib.py] and
    [cvpack/openmm_force_wrapper.py].  Python objects live in a store
    addressed by locations, so that a force reached through a system
    and through [self] is one object; methods are computations in a
    store-and-exception monad; the engine's own services (energy
    queries, unit conversion, XML serialization) are an interface. *)

From stdpp Require Import base option list gmap sets strings pretty.

Set Default Proof Using "Type".

(** ** Python runtime *)

Module Py.

(** The exceptions that can travel through the modelled code.
    [StopIteration], [TypeError] and [AttributeError] are raised by
    the Python runtime itself; [OpenMMException] is what the engine
    raises.  [DanglingRef] is not a Python exception: it is the
    outcome of dereferencing a location absent from the store, which
    no Python program can hold. *)
Inductive Exn :=
| StopIteration
| TypeError (msg : string)
| AttributeError (msg : string)
| OpenMMException (msg : string)
| DanglingRef.

Definition raised_by_engine (e : Exn) : bool :=
  match e with OpenMMException _ => true | _ => false end.

Definition loc := positive.

(** A computation over a store [St]: the store survives an
    exception, as mutations of Python objects do. *)
Definition M (St A : Type) : Type := St → (Exn + A) * St.

Section monad.
Context {St : Type}.

Definition ret {A} (a : A) : M St A := λ σ, (inr a, σ).
Definition raise {A} (e : Exn) : M St A := λ σ, (inl e, σ).
Definition bind {A B} (m : M St A) (k : A → M St B) : M St B :=
  λ σ, match m σ with
       | (inr a, σ') => k a σ'
       | (inl e, σ') => (inl e, σ')
       end.
Definition get : M St St := λ σ, (inr σ, σ).
Definition put (σ : St) : M St () := λ _, (inr (), σ).
Definition lift {A} (r : Exn + A) : M St A := λ σ, (r, σ).

(** [for x in xs: body x] *)
Fixpoint for_each {A} (xs : list A) (body : A → M St ()) : M St () :=
  match xs with
  | [] => ret ()
  | x :: xs' => bind (body x) (λ _, for_each xs' body)
  end.

(** [[f x for x in xs]] *)
Fixpoint comprehension {A B} (xs : list A) (f : A → M St B) : M St (list B) :=
  match xs with
  | [] => ret []
  | x :: xs' => bind (f x) (λ y, bind (comprehension xs' f) (λ ys, ret (y :: ys)))
  end.
End monad.

(** [next(iter(s))] on a set of integers.  The iteration order of a
    Python set is not specified, so the first element is whatever
    the runtime yields: some member of [s], or [StopIteration]
    ([None]) exactly when [s] is empty. *)
Class SetIter := {
  next_iter : gset nat → option nat;
  next_iter_elem : ∀ s x, next_iter s = Some x → x ∈ s;
  next_iter_stop : ∀ s, next_iter s = None → s = ∅
}.

End Py.

Import Py.

Notation "x <- m ;; k" := (bind m (λ x, k))
  (at level 100, m at next level, k at level 200, right associativity,
   format "'[v' x  <-  m  ;; '/' k ']'").

(** ** cvlib: collective variables as engine forces *)

Module Cvlib.

(** Units of measurement are engine objects; only their identity
    matters here. *)
Inductive Unit :=
| dimensionless
| nanometers
| kilojoules_per_mole
| other_unit (name : string).

(** A quantity pairs a number with its unit; [x * u] for a bare
    number [x] and a unit [u] builds one. *)
Record Quantity (Scalar : Type) := mkQuantity { q_value : Scalar; q_unit : Unit }.
Arguments mkQuantity {Scalar} _ _.
Arguments q_value {Scalar} _.
Arguments q_unit {Scalar} _.

(** The engine-side content of a [CustomCentroidBondForce]. *)
Record CentroidBond := {
  numGroupsPerBond : nat;
  energyFunction : string;
  groups : list (list Z * list Z);       (* particles, weights *)
  bonds : list (list nat * list Z);      (* group indices, parameters *)
  usesPeriodicBoundaryConditions : bool
}.

Inductive ForceBody :=
| CustomCentroidBondForce (b : CentroidBond)
| EngineForce (description : string).

(** A force object: the engine's force group, the Python instance
    attribute [_unit] (absent until [setUnit] runs, in which case
    the class attribute [dimensionless] is read), and the body. *)
Record Force := {
  forceGroup : nat;
  _unit : option Unit;
  body : ForceBody
}.

Abbreviation Store := (gmap loc Force).

(** What the engine provides: its floating-point numbers, the part
    of a context that is not its system (positions, platform), the
    conversion of a quantity to MD units, and the potential energy
    of the forces whose group is in a given set. *)
Class Engine := {
  Scalar : Type;
  Simulation : Type;
  value_in_md_unit_system : Quantity Scalar → Scalar;
  potential_energy :
    Simulation → list loc → Store → gset nat → Exn + Quantity Scalar
}.

Record Context `{Engine} := {
  getSystem : list loc;           (* the forces of the context's system *)
  simulation : Simulation
}.

Section methods.
Context `{Engine} `{SetIter}.

(** [_in_md_units] *)
Definition _in_md_units (quantity : Quantity Scalar) : Scalar :=
  value_in_md_unit_system quantity.

Definition deref (l : loc) : M Store Force :=
  λ σ, match σ !! l with
       | Some f => (inr f, σ)
       | None => (inl DanglingRef, σ)
       end.

Definition getForceGroup (self : loc) : M Store nat :=
  f <- deref self;; ret (forceGroup f).

(** The engine rejects a group outside 0..31. *)
Definition setForceGroup (self : loc) (group : nat) : M Store () :=
  f <- deref self;;
  if decide (group ≤ 31)
  then λ σ, (inr (), <[self := {| forceGroup := group; _unit := _unit f; body := body f |}]> σ)
  else raise (OpenMMException "Force group must be between 0 and 31").

Definition setUnit (self : loc) (cv_unit : Unit) : M Store () :=
  f <- deref self;;
  λ σ, (inr (), <[self := {| forceGroup := forceGroup f; _unit := Some cv_unit; body := body f |}]> σ).

Definition getUnit (self : loc) : M Store Unit :=
  f <- deref self;; ret (default dimensionless (_unit f)).

(** [context.getState(getEnergy=True, groups=...)] followed by
    [state.getPotentialEnergy()] *)
Definition getPotentialEnergy (context : Context) (groups : gset nat)
  : M Store (Quantity Scalar) :=
  λ σ, (potential_energy (simulation context) (getSystem context) σ groups, σ).

(** [set(range(32)) - set(f.getForceGroup() for f in forces)] *)
Definition free_groups (occupied : list nat) : gset nat :=
  list_to_set (seq 0 32) ∖ list_to_set occupied.

(** [next(iter(free_groups))] *)
Definition first_of (free_groups : gset nat) : M Store nat :=
  match next_iter free_groups with
  | Some g => ret g
  | None => raise StopIteration
  end.

Definition evaluateInContext (self : loc) (context : Context)
  : M Store (Quantity Scalar) :=
  let forces := getSystem context in
  occupied <- comprehension forces getForceGroup;;
  let free_groups := free_groups occupied in
  old_group <- getForceGroup self;;
  new_group <- first_of free_groups;;
  _ <- setForceGroup self new_group;;
  energy <- getPotentialEnergy context {[new_group]};;
  _ <- setForceGroup self old_group;;
  u <- getUnit self;;
  ret (mkQuantity (_in_md_units energy) u).

(** *** The engine's [CustomCentroidBondForce] *)

(** The engine's bindings take a C [int] wherever an index or a
    count is expected: a Python integer outside the 32-bit range is
    refused with [TypeError] before the engine sees the call. *)
Definition fits_int (z : Z) : Prop := (-2147483648 ≤ z ≤ 2147483647)%Z.

#[global] Instance fits_int_dec z : Decision (fits_int z).
Proof. unfold fits_int. apply _. Defined.

(** Run [f] on the centroid-bond content of [self]; any other
    force has no such methods. *)
Definition on_centroid_bond {A} (self : loc)
    (f : CentroidBond → Exn + A * CentroidBond) : M Store A :=
  o <- deref self;;
  match body o with
  | CustomCentroidBondForce b =>
      match f b with
      | inr (a, b') =>
          λ σ, (inr a, <[self := {| forceGroup := forceGroup o; _unit := _unit o;
                                    body := CustomCentroidBondForce b' |}]> σ)
      | inl e => raise e
      end
  | EngineForce _ => raise (AttributeError "not a CustomCentroidBondForce")
  end.

(** The engine's constructor: a force in group 0, without groups
    or bonds, that does not use periodic boundary conditions. *)
Definition CustomCentroidBondForce___init__ (self : loc)
    (numGroups : nat) (energy : string) : M Store () :=
  if decide (fits_int (Z.of_nat numGroups))
  then λ σ, (inr (), <[self := {| forceGroup := 0; _unit := None;
                                  body := CustomCentroidBondForce
                                    {| numGroupsPerBond := numGroups;
                                       energyFunction := energy;
                                       groups := [];
                                       bonds := [];
                                       usesPeriodicBoundaryConditions := false |} |}]> σ)
  else raise (TypeError "numGroups is not an int").

Definition addGroup (self : loc) (particles weights : list Z) : M Store nat :=
  on_centroid_bond self (λ b,
    if decide (¬ Forall fits_int particles)
    then inl (TypeError "particles is not a sequence of int")
    else if decide (length particles ≠ length weights ∧ 0 < length weights)
    then inl (OpenMMException "wrong number of weights specified for a group")
    else inr (length (groups b),
              {| numGroupsPerBond := numGroupsPerBond b;
                 energyFunction := energyFunction b;
                 groups := groups b ++ [(particles, weights)];
                 bonds := bonds b;
                 usesPeriodicBoundaryConditions := usesPeriodicBoundaryConditions b |})).

Definition addBond (self : loc) (bond_groups : list nat) (parameters : list Z)
  : M Store nat :=
  on_centroid_bond self (λ b,
    if decide (¬ Forall (λ i, fits_int (Z.of_nat i)) bond_groups)
    then inl (TypeError "groups is not a sequence of int")
    else if decide (length bond_groups = numGroupsPerBond b)
    then inr (length (bonds b),
              {| numGroupsPerBond := numGroupsPerBond b;
                 energyFunction := energyFunction b;
                 groups := groups b;
                 bonds := bonds b ++ [(bond_groups, parameters)];
                 usesPeriodicBoundaryConditions := usesPeriodicBoundaryConditions b |})
    else inl (OpenMMException "wrong number of groups specified for a bond")).

Definition setUsesPeriodicBoundaryConditions (self : loc) (periodic : bool)
  : M Store () :=
  on_centroid_bond self (λ b,
    inr ((), {| numGroupsPerBond := numGroupsPerBond b;
                energyFunction := energyFunction b;
                groups := groups b;
                bonds := bonds b;
                usesPeriodicBoundaryConditions := periodic |})).

(** *** [RadiusOfGyration] *)

(** ["+".join(parts)] *)
Definition join (sep : string) (parts : list string) : string :=
  String.concat sep parts.

(** [f"distance(g{i+1}, g{num_groups})^2"] *)
Definition distance_term (num_groups i : nat) : string :=
  "distance(g" +:+ pretty (i + 1) +:+ ", g" +:+ pretty num_groups +:+ ")^2".

Definition RadiusOfGyration___init__ (self : loc) (atoms : list Z) : M Store () :=
  let num_atoms := length atoms in
  let num_groups := num_atoms + 1 in
  let rgsq := join "+" (map (distance_term num_groups) (seq 0 num_atoms)) in
  _ <- CustomCentroidBondForce___init__ self num_groups
         ("sqrt((" +:+ rgsq +:+ ")/" +:+ pretty num_atoms +:+ ")");;
  _ <- for_each atoms (λ atom, _ <- addGroup self [atom] [1%Z];; ret ());;
  _ <- addGroup self atoms (replicate num_atoms 1%Z);;
  _ <- addBond self (seq 0 num_groups) [];;
  _ <- setUsesPeriodicBoundaryConditions self false;;
  setUnit self nanometers.

(** The expression [RadiusOfGyration(atoms)]: a new object, then
    [__init__] on it. *)
Definition RadiusOfGyration (atoms : list Z) : M Store loc :=
  σ <- get;;
  let self := fresh (dom σ) in
  _ <- RadiusOfGyration___init__ self atoms;;
  ret self.
End methods.

(** *** The energy expression, as a term

    Following the docstring of [RadiusOfGyration]: the square root
    of the mean, over the atoms, of the squared distance between an
    atom and the centroid of all of them.  [g i] is the engine's
    name for the [i]-th group of a bond, counted from 1. *)
#[local] Unset Elimination Schemes.
Inductive Expr :=
| g (i : nat)
| distance (a b : Expr)
| squared (e : Expr)
| mean (terms : list Expr)
| sqrt (e : Expr).
#[local] Set Elimination Schemes.

Fixpoint render (e : Expr) : string :=
  match e with
  | g i => "g" +:+ pretty i
  | distance a b => "distance(" +:+ render a +:+ ", " +:+ render b +:+ ")"
  | squared e => render e +:+ "^2"
  | mean terms =>
      "(" +:+ String.concat "+" (map render terms) +:+ ")/" +:+ pretty (length terms)
  | sqrt e => "sqrt(" +:+ render e +:+ ")"
  end.

(** The radius of gyration of [n] single-atom groups [g 1 .. g n]
    around the group [g (n+1)] that holds them all. *)
Definition radius_of_gyration_expr (n : nat) : Expr :=
  sqrt (mean (map (λ i, squared (distance (g (i + 1)) (g (n + 1)))) (seq 0 n))).

(** *** Vocabulary for the statements *)

(** Every force of the system is an object of the store. *)
Definition live (σ : Store) (system : list loc) : Prop :=
  Forall (λ l, is_Some (σ !! l)) system.

(** The groups of the system's forces, in system order. *)
Definition occupied_groups (σ : Store) (system : list loc) : list nat :=
  omap (λ l, forceGroup <$> σ !! l) system.

(** No force of the system is in group [group]. *)
Definition unoccupied (σ : Store) (system : list loc) (group : nat) : Prop :=
  ∀ l f, l ∈ system → σ !! l = Some f → forceGroup f ≠ group.

(** Every group 0..31 holds some force of the system. *)
Definition exhausted (σ : Store) (system : list loc) : Prop :=
  ∀ group, group ≤ 31 → ∃ l f, l ∈ system ∧ σ !! l = Some f ∧ forceGroup f = group.

(** Atom indices that the engine's bindings accept, few enough
    for the number of groups to be a C [int] as well. *)
Definition engine_ints (atoms : list Z) : Prop :=
  Forall fits_int atoms ∧ (Z.of_nat (length atoms) < 2147483647)%Z.

(** [cv], moved to another force group. *)
Definition in_group (cv : Force) (group : nat) : Force :=
  {| forceGroup := group; _unit := _unit cv; body := body cv |}.

End Cvlib.

(** ** cvpack: wrapping an engine force as a collective variable *)

Module Cvpack.

(** The classes in play.  [C_engine name] is the Python class of the
    engine's type [name]: a force type (for instance
    [CustomAngleForce]), whose class derives from [openmm.Force]
    alone, or another serializable type (an integrator, a system),
    whose class does not.  [C_user name base] is a class written in
    Python that derives from the engine class [base], as the
    collective variables of cvlib do. *)
Inductive PyClass :=
| C_object
| C_Force
| C_engine (name : string)
| C_user (name base : string)
| C_BaseCollectiveVariable
| C_OpenMMForceWrapper.

#[global] Instance PyClass_eq_dec : EqDecision PyClass.
Proof. solve_decision. Defined.

(** What the engine provides: its own objects, each of a named
    type, some of these types being force types; units, scalar
    quantities, and XML serialization.  An object that serializes
    yields text that deserializes to an object of the same type. *)
Class Host := {
  EngineObject : Type;
  type_name : EngineObject → string;
  force_type : string → bool;
  Unit : Type;
  ScalarQuantity : Type;
  xml_serialize : EngineObject → Exn + string;
  xml_deserialize : string → Exn + EngineObject;
  xml_copy : ∀ f s, xml_serialize f = inr s →
    ∃ f', xml_deserialize s = inr f' ∧ type_name f' = type_name f
}.

Section model.
Context `{Host}.

(** Modelled from the spec: [cvpack.unit.SerializableUnit] is not
    among the sources; the spec knows a unit-of-measurement tag
    attached to a collective variable, so the wrapper carries the
    unit it was built from. *)
Inductive SerializableUnit := serializable (u : Unit).

(** What an instance [__dict__] can hold. *)
Inductive Value :=
| VThis (p : loc)                     (* handle on an engine object *)
| VStr (s : string)
| VUnit (u : SerializableUnit)
| VQuantity (q : ScalarQuantity).

Record PyObject := {
  ob_class : PyClass;
  ob_dict : gmap string Value
}.

(** Python objects, engine objects, and the one piece of class
    state that changes: [OpenMMForceWrapper.__bases__]. *)
Record World := {
  heap : gmap loc PyObject;
  engine : gmap loc EngineObject;
  wrapper_bases : list PyClass
}.

(** Modelled from the spec: [BaseCollectiveVariable] is defined in
    [cvpack/cvpack.py], which is not among the sources; the spec
    has every collective variable implemented as a specialized
    force object, so the class derives from [openmm.Force]. *)
Definition initial_bases : list PyClass := [C_BaseCollectiveVariable].

Definition __bases__ (w : World) (c : PyClass) : list PyClass :=
  match c with
  | C_object => []
  | C_Force => [C_object]
  | C_engine name => if force_type name then [C_Force] else [C_object]
  | C_user _ base => [C_engine base]
  | C_BaseCollectiveVariable => [C_Force]
  | C_OpenMMForceWrapper => wrapper_bases w
  end.

(** A class together with everything it inherits from: the
    members of its method resolution order.  The search is four
    levels deep, which is the height of the hierarchy. *)
Fixpoint ancestors (depth : nat) (w : World) (c : PyClass) : list PyClass :=
  c :: match depth with
       | 0 => []
       | S d => flat_map (ancestors d w) (__bases__ w c)
       end.

Definition issubclass (w : World) (c d : PyClass) : bool :=
  bool_decide (d ∈ ancestors 4 w c).

Definition isinstance (w : World) (l : loc) (c : PyClass) : bool :=
  match heap w !! l with
  | Some o => issubclass w (ob_class o) c
  | None => false
  end.

Definition deref (l : loc) : M World PyObject :=
  λ w, match heap w !! l with
       | Some o => (inr o, w)
       | None => (inl DanglingRef, w)
       end.

Definition store (l : loc) (o : PyObject) : M World () :=
  λ w, (inr (), {| heap := <[l := o]> (heap w);
                   engine := engine w;
                   wrapper_bases := wrapper_bases w |}).

(** [object.__new__(cls)]: a new instance with an empty [__dict__]. *)
Definition object___new__ (cls : PyClass) : M World loc :=
  w <- get;;
  let l := fresh (dom (heap w)) in
  _ <- store l {| ob_class := cls; ob_dict := ∅ |};;
  ret l.

(** [openmm.XmlSerializer.serialize(force)]: reads the engine
    object behind the proxy. *)
Definition XmlSerializer_serialize (force : loc) : M World string :=
  o <- deref force;;
  match ob_dict o !! "this" with
  | Some (VThis p) =>
      w <- get;;
      match engine w !! p with
      | Some f => lift (xml_serialize f)
      | None => raise DanglingRef
      end
  | _ => raise (TypeError "not an engine object")
  end.

(** [openmm.XmlSerializer.deserialize(xml)]: a new engine object
    and a new proxy of the matching class. *)
Definition XmlSerializer_deserialize (xml : string) : M World loc :=
  f <- lift (xml_deserialize xml);;
  w <- get;;
  let p := fresh (dom (engine w)) in
  _ <- put {| heap := heap w; engine := <[p := f]> (engine w);
              wrapper_bases := wrapper_bases w |};;
  l <- object___new__ (C_engine (type_name f));;
  _ <- store l {| ob_class := C_engine (type_name f);
                  ob_dict := {["this" := VThis p]} |};;
  ret l.

(** [target.__dict__.update(source.__dict__)] *)
Definition dict_update (target source : loc) : M World () :=
  t <- deref target;;
  s <- deref source;;
  store target {| ob_class := ob_class t; ob_dict := ob_dict s ∪ ob_dict t |}.

(** Assignment to [cls.__bases__].  Python recomputes the method
    resolution order and refuses a tuple with a repeated class;
    the classes appended here are engine classes, direct children
    of [openmm.Force], for which the order always exists.  Only
    the bases of [OpenMMForceWrapper] are mutable state. *)
Definition set___bases__ (cls : PyClass) (new_bases : list PyClass) : M World () :=
  match cls with
  | C_OpenMMForceWrapper =>
      if decide (NoDup new_bases)
      then λ w, (inr (), {| heap := heap w; engine := engine w;
                            wrapper_bases := new_bases |})
      else raise (TypeError "duplicate base class")
  | _ => raise (TypeError "can't set attributes of this class")
  end.

Definition setattr (self : loc) (name : string) (v : Value) : M World () :=
  o <- deref self;;
  store self {| ob_class := ob_class o; ob_dict := <[name := v]> (ob_dict o) |}.

(** The engine's force methods, called on [self]: the handle that
    [self] carries must be that of a force. *)
Definition as_force (self : loc) : M World () :=
  o <- deref self;;
  match ob_dict o !! "this" with
  | Some (VThis p) =>
      w <- get;;
      match engine w !! p with
      | Some f =>
          if force_type (type_name f) then ret ()
          else raise (TypeError "the object is not a Force")
      | None => raise DanglingRef
      end
  | _ => raise (AttributeError "this")
  end.

(** Modelled from the spec: [BaseCollectiveVariable._registerCV] is
    not among the sources; the spec has construction register the
    unit of measurement as metadata of the variable, which it treats
    as a force of the engine: the registration is refused when the
    variable's handle is not that of a force.  The further arguments
    are accepted and left alone. *)
Definition _registerCV (self : loc) (unit : SerializableUnit)
    (args : list (option Value)) : M World () :=
  _ <- as_force self;;
  setattr self "_unit" (VUnit unit).

(** Modelled from the spec: [BaseCollectiveVariable._registerPeriod]
    is not among the sources; the spec has a collective variable
    carry an optional periodicity value. *)
Definition _registerPeriod (self : loc) (period : ScalarQuantity) : M World () :=
  setattr self "_period" (VQuantity period).

(** The annotated type of the first argument:
    [t.Union[openmm.Force, str]]. *)
Inductive ForceArg :=
| force_object (l : loc)
| xml_text (s : string).

Definition OpenMMForceWrapper___init__ (self : loc) (openmmForce : ForceArg)
    (unit : Unit) (period : option ScalarQuantity) : M World () :=
  openmmForce <- (match openmmForce with
                  | force_object f => XmlSerializer_serialize f
                  | xml_text s => ret s
                  end);;
  let unit := serializable unit in
  force_copy <- XmlSerializer_deserialize openmmForce;;
  _ <- dict_update self force_copy;;
  self_o <- deref self;;
  copy_o <- deref force_copy;;
  w <- get;;
  _ <- set___bases__ (ob_class self_o)
         (__bases__ w (ob_class self_o) ++ [ob_class copy_o]);;
  _ <- _registerCV self unit
         [Some (VStr openmmForce); Some (VUnit unit); VQuantity <$> period];;
  match period with
  | Some p => _registerPeriod self p
  | None => ret ()
  end.

(** The expression [OpenMMForceWrapper(openmmForce, unit, period)]. *)
Definition OpenMMForceWrapper (openmmForce : ForceArg) (unit : Unit)
    (period : option ScalarQuantity) : M World loc :=
  self <- object___new__ C_OpenMMForceWrapper;;
  _ <- OpenMMForceWrapper___init__ self openmmForce unit period;;
  ret self.

(** *** Vocabulary for the statements *)

(** The engine object behind a proxy. *)
Definition engine_object (w : World) (force : loc) : option EngineObject :=
  match heap w !! force with
  | Some o =>
      match ob_dict o !! "this" with
      | Some (VThis p) => engine w !! p
      | _ => None
      end
  | None => None
  end.

(** The text that the constructor deserializes: the serialized force,
    or the text it was given. *)
Definition document (openmmForce : ForceArg) (w : World) : Exn + string :=
  match openmmForce with
  | force_object f => (XmlSerializer_serialize f w).1
  | xml_text s => inr s
  end.

(** What the constructor was given, as the engine sees it: the text
    [xml] is the serialization of the engine object behind the force,
    or the text itself. *)
Definition source_of (w : World) (openmmForce : ForceArg) (xml : string) : Prop :=
  match openmmForce with
  | force_object force =>
      ∃ f0, engine_object w force = Some f0 ∧ xml_serialize f0 = inr xml
  | xml_text s => xml = s
  end.

(** The argument is something a caller can hold: a force object of
    the heap, or a text. *)
Definition live_arg (w : World) (openmmForce : ForceArg) : Prop :=
  match openmmForce with
  | force_object force => is_Some (heap w !! force)
  | xml_text _ => True
  end.

(** The attributes [d] of an instance, once the unit and the period
    have been registered. *)
Definition registered_dict (d : gmap string Value) (unit : Unit)
    (period : option ScalarQuantity) : gmap string Value :=
  let registered := <["_unit" := VUnit (serializable unit)]> d in
  match period with
  | Some q => <["_period" := VQuantity q]> registered
  | None => registered
  end.

(** The attributes of a finished wrapper around the engine object [p]. *)
Definition wrapper_dict (p : loc) (unit : Unit) (period : option ScalarQuantity)
  : gmap string Value :=
  registered_dict ({["this" := VThis p]} ∪ ∅) unit period.
End model.

End Cvpack.

(** ** Reference instances of the interfaces

    One concrete engine and one concrete iteration order, on which the
    model can be run. *)

Module Reference.
Import Cvlib.

(** Iteration from the head of the set's element list. *)
Definition first_element (s : gset nat) : option nat := head (elements s).

Lemma first_element_elem s x : first_element s = Some x → x ∈ s.
Proof. intros Hx%head_Some_elem_of. by apply elem_of_elements. Qed.

Lemma first_element_stop s : first_element s = None → s = ∅.
Proof. intros Hs%head_None. by apply leibniz_equiv, elements_empty_inv. Qed.

#[export] Instance set_iter : SetIter := {|
  next_iter := first_element;
  next_iter_elem := first_element_elem;
  next_iter_stop := first_element_stop
|}.

(** An engine over the integers: a simulation assigns an energy
    term (in kJ/mol) to each force, and the potential energy of a
    set of groups is the sum of the terms of the system's forces in
    these groups.  An empty system has no state to report. *)
Definition sum_energy (terms : loc → Z) (system : list loc) (σ : Store)
    (groups : gset nat) : Exn + Quantity Z :=
  match system with
  | [] => inl (OpenMMException "the system has no forces")
  | _ =>
      inr (mkQuantity
             (foldr Z.add 0%Z
                (map (λ l, match σ !! l with
                           | Some f => if decide (forceGroup f ∈ groups)
                                       then terms l else 0%Z
                           | None => 0%Z
                           end) system))
             kilojoules_per_mole)
  end.

#[export] Instance engine : Engine := {|
  Scalar := Z;
  Simulation := loc → Z;
  value_in_md_unit_system := q_value;
  potential_energy := sum_energy
|}.

Definition plain_force (group : nat) : Force :=
  {| forceGroup := group; _unit := None; body := EngineForce "HarmonicBondForce" |}.

(** A store of [n] plain forces at locations [1 .. n], the force at
    location [i] in group [i - 1]. *)
Definition crowded (n : nat) : Store :=
  list_to_map (map (λ i, (Pos.of_nat (S i), plain_force i)) (seq 0 n)).

Definition crowded_context (n : nat) : Context :=
  {| getSystem := map (λ i, Pos.of_nat (S i)) (seq 0 n);
     simulation := λ l, Z.pos l |}.

(** An engine whose contexts have not been given positions: it
    refuses every energy query. *)
Definition without_positions : Engine :=
  {| Scalar := Z;
     Simulation := ();
     value_in_md_unit_system := q_value;
     potential_energy := λ _ _ _ _,
       inl (OpenMMException "Particle positions have not been set") |}.

Definition crowded_without_positions (n : nat) : @Context without_positions :=
  @Build_Context without_positions (map (λ i, Pos.of_nat (S i)) (seq 0 n)) tt.
End Reference.


(** A reference host: an engine object is just the name of its type,
    and its XML is that name; the empty document is refused both
    ways. *)

Module ReferenceHost.
Import Cvpack.

Definition name_to_xml (f : string) : Exn + string :=
  if decide (f = "") then inl (OpenMMException "nothing to serialize") else inr f.

Definition xml_to_name (xml : string) : Exn + string :=
  if decide (xml = "") then inl (OpenMMException "empty document") else inr xml.

Lemma xml_to_name_copy f xml :
  name_to_xml f = inr xml → ∃ f', xml_to_name xml = inr f' ∧ id f' = id f.
Proof.
  unfold name_to_xml, xml_to_name. case_decide; [done|]. intros [= <-].
  exists f. by rewrite decide_False.
Qed.

(** The force types of the reference host; any other name is the
    type of an object that is not a force. *)
Definition reference_force_type (name : string) : bool :=
  bool_decide (name ∈ ["CustomAngleForce"; "CustomBondForce"; "CustomCentroidBondForce"]).

#[export] Instance host : Host := {|
  EngineObject := string;
  type_name := id;
  force_type := reference_force_type;
  Unit := string;
  ScalarQuantity := Z;
  xml_serialize := name_to_xml;
  xml_deserialize := xml_to_name;
  xml_copy := xml_to_name_copy
|}.

(** A unit and a period to build wrappers with. *)
Definition radian : @Unit host := "radian".
Definition two_pi : @ScalarQuantity host := 6%Z.

(** The proxy of an engine force of type [CustomAngleForce]. *)
Definition angle_proxy (p : loc) : PyObject :=
  {| ob_class := C_engine "CustomAngleForce"; ob_dict := {["this" := VThis p]} |}.

(** Two angle forces, built by the user, and no wrapper yet. *)
Definition two_angles : World :=
  {| heap := {[1%positive := angle_proxy 1%positive; 2%positive := angle_proxy 2%positive]};
     engine := {[1%positive := "CustomAngleForce"; 2%positive := "CustomAngleForce"]};
     wrapper_bases := initial_bases |}.

(** A wrapper around the first of the two angle forces, in radians,
    with a period. *)
Definition first_wrapper : (Exn + loc) * World :=
  OpenMMForceWrapper (force_object 1%positive) radian (Some two_pi) two_angles.




End ReferenceHost.

(** * Properties *)

(** ** The monad *)

Section monad_facts.
Context {St A B : Type}.
Implicit Types (m : M St A) (k : A → M St B).

Lemma bind_inr m k σ a σ' : m σ = (inr a, σ') → bind m k σ = k a σ'.
Proof. unfold bind. by intros ->. Qed.

Lemma bind_inl m k σ e σ' : m σ = (inl e, σ') → bind m k σ = (inl e, σ').
Proof. unfold bind. by intros ->. Qed.

Lemma bind_inr_inv m k σ b σ' :
  bind m k σ = (inr b, σ') → ∃ a σ1, m σ = (inr a, σ1) ∧ k a σ1 = (inr b, σ').
Proof.
  unfold bind. destruct (m σ) as [[e|a] σ1]; [done|]. intros Hk. by exists a, σ1.
Qed.
End monad_facts.

(** ** cvlib *)

Section cvlib_facts.
Import Cvlib.
Context `{Engine} `{SetIter}.
Implicit Types (σ : Store) (self l : loc) (cv f : Force).

Lemma deref_live σ l f : σ !! l = Some f → deref l σ = (inr f, σ).
Proof. unfold deref. by intros ->. Qed.

Lemma deref_inv σ l r σ' :
  deref l σ = (r, σ') → σ' = σ ∧ (∀ f, r = inr f → σ !! l = Some f).
Proof. unfold deref. destruct (σ !! l); intros; simplify_eq; naive_solver. Qed.

Lemma getForceGroup_live σ l f :
  σ !! l = Some f → getForceGroup l σ = (inr (forceGroup f), σ).
Proof. intros Hl. unfold getForceGroup. by rewrite (bind_inr _ _ _ _ _ (deref_live _ _ _ Hl)). Qed.

Lemma getForceGroup_inv σ l r σ' :
  getForceGroup l σ = (r, σ') →
  σ' = σ ∧ (∀ group, r = inr group → ∃ f, σ !! l = Some f ∧ forceGroup f = group).
Proof.
  unfold getForceGroup, bind, deref, ret.
  destruct (σ !! l) as [f|]; intros; simplify_eq; split; try done.
  intros group [= <-]. by exists f.
Qed.

Lemma setForceGroup_live σ l f group :
  σ !! l = Some f → group ≤ 31 →
  setForceGroup l group σ = (inr (), <[l := in_group f group]> σ).
Proof.
  intros Hl Hg. unfold setForceGroup.
  rewrite (bind_inr _ _ _ _ _ (deref_live _ _ _ Hl)). by rewrite decide_True.
Qed.

Lemma setForceGroup_inv σ l group σ' :
  setForceGroup l group σ = (inr (), σ') →
  ∃ f, σ !! l = Some f ∧ group ≤ 31 ∧ σ' = <[l := in_group f group]> σ.
Proof.
  unfold setForceGroup, bind, deref, raise.
  destruct (σ !! l) as [f|]; [|done].
  case_decide; [|done]. intros [= <-]. by exists f.
Qed.

Lemma getUnit_live σ l f :
  σ !! l = Some f → getUnit l σ = (inr (default dimensionless (_unit f)), σ).
Proof. intros Hl. unfold getUnit. by rewrite (bind_inr _ _ _ _ _ (deref_live _ _ _ Hl)). Qed.

(** Reading the groups of the system's forces leaves the store as
    it is, whatever the outcome. *)
Lemma comprehension_groups_store σ system r σ' :
  comprehension system getForceGroup σ = (r, σ') → σ' = σ.
Proof.
  intros Hrun. transitivity (comprehension system getForceGroup σ).2;
    [by rewrite Hrun|]. clear Hrun.
  induction system as [|l system IH]; simpl; [done|].
  unfold bind at 1. destruct (getForceGroup l σ) as [[e|group] σ1] eqn:Hl;
    apply getForceGroup_inv in Hl as [-> _]; [done|].
  unfold bind at 1.
  by destruct (comprehension system getForceGroup σ) as [[e|groups] σ2].
Qed.

Lemma comprehension_groups_live σ system :
  live σ system →
  comprehension system getForceGroup σ = (inr (occupied_groups σ system), σ).
Proof.
  unfold live, occupied_groups. induction 1 as [|l system [f Hl] _ IH]; simpl; [done|].
  rewrite (bind_inr _ _ _ _ _ (getForceGroup_live _ _ _ Hl)).
  rewrite (bind_inr _ _ _ _ _ IH). by rewrite Hl.
Qed.

Lemma elem_of_occupied_groups σ system group :
  group ∈ occupied_groups σ system ↔
  ∃ l f, l ∈ system ∧ σ !! l = Some f ∧ forceGroup f = group.
Proof.
  unfold occupied_groups. rewrite list_elem_of_omap. split.
  - intros (l & Hl & Hg). destruct (σ !! l) as [f|] eqn:Hf; simplify_eq/=.
    by exists l, f.
  - intros (l & f & Hl & Hf & <-). exists l. by rewrite Hf.
Qed.

(** The free groups are the groups 0..31 that no force of the
    system is in. *)
Lemma elem_of_free_groups σ system group :
  group ∈ free_groups (occupied_groups σ system) ↔
  group ≤ 31 ∧ unoccupied σ system group.
Proof.
  unfold free_groups, unoccupied.
  rewrite elem_of_difference, !elem_of_list_to_set, elem_of_seq,
    elem_of_occupied_groups.
  split.
  - intros [? Hfree]. split; [lia|]. intros l f ? ? ?. apply Hfree. by exists l, f.
  - intros [? Hfree]. split; [lia|]. intros (l & f & ? & ? & ?). by eapply Hfree.
Qed.

Lemma in_group_same cv : in_group cv (forceGroup cv) = cv.
Proof. by destruct cv. Qed.

Lemma in_group_twice cv g1 g2 : in_group (in_group cv g1) g2 = in_group cv g2.
Proof. done. Qed.
End cvlib_facts.

Section cvlib_claims.
Import Cvlib.
Context `{Engine} `{SetIter}.
Implicit Types (σ : Store) (self l : loc) (cv f : Force) (context : Context).

Lemma first_of_free σ system :
  (∃ group, group ≤ 31 ∧ unoccupied σ system group) →
  ∃ new_group,
    next_iter (free_groups (occupied_groups σ system)) = Some new_group ∧
    new_group ≤ 31 ∧ unoccupied σ system new_group.
Proof.
  intros (group & Hle & Hfree).
  destruct (next_iter (free_groups (occupied_groups σ system))) as [new_group|] eqn:Hnext.
  - exists new_group. split; [done|].
    by apply elem_of_free_groups, next_iter_elem.
  - apply next_iter_stop in Hnext.
    assert (group ∈ free_groups (occupied_groups σ system)) as Hin
      by by apply elem_of_free_groups.
    rewrite Hnext in Hin. by apply not_elem_of_empty in Hin.
Qed.

Lemma free_groups_exhausted σ system :
  exhausted σ system → free_groups (occupied_groups σ system) = ∅.
Proof.
  intros Hfull. apply leibniz_equiv, elem_of_equiv_empty. intros group.
  rewrite elem_of_free_groups. intros [Hle Hfree].
  destruct (Hfull group Hle) as (l & f & Hl & Hf & Hg). by eapply Hfree.
Qed.

(** C1.  When a group in 0..31 holds no force of the context's
    system, [evaluateInContext] moves the variable to such a group,
    asks the engine for the potential energy of that single group,
    and returns the value of that energy in the engine's MD unit
    system, with the variable's unit; should the engine refuse the
    query, its exception goes through. *)
Theorem evaluateInContext_isolates_a_free_group self context σ cv :
  σ !! self = Some cv →
  forceGroup cv ≤ 31 →
  live σ (getSystem context) →
  (∃ group, group ≤ 31 ∧ unoccupied σ (getSystem context) group) →
  ∃ new_group,
    unoccupied σ (getSystem context) new_group ∧
    let moved := <[self := in_group cv new_group]> σ in
    evaluateInContext self context σ =
      match potential_energy (simulation context) (getSystem context)
              moved {[new_group]} with
      | inr energy =>
          (inr (mkQuantity (value_in_md_unit_system energy)
                  (default dimensionless (_unit cv))), σ)
      | inl e => (inl e, moved)
      end.
Proof.
  intros Hself Hold Hlive Hfree.
  destruct (first_of_free _ _ Hfree) as (new_group & Hnext & Hnew & Hun).
  exists new_group. split; [done|]. cbv zeta. unfold evaluateInContext.
  rewrite (bind_inr _ _ _ _ _ (comprehension_groups_live _ _ Hlive)).
  rewrite (bind_inr _ _ _ _ _ (getForceGroup_live _ _ _ Hself)).
  unfold first_of. rewrite Hnext. rewrite (bind_inr _ _ σ new_group σ eq_refl).
  rewrite (bind_inr _ _ _ _ _ (setForceGroup_live _ _ _ _ Hself Hnew)).
  unfold bind at 1, getPotentialEnergy.
  destruct (potential_energy _ _ _ _) as [e|energy]; [done|].
  assert (<[self := in_group cv new_group]> σ !! self = Some (in_group cv new_group))
    as Hmoved by apply lookup_insert_eq.
  rewrite (bind_inr _ _ _ _ _ (setForceGroup_live _ _ _ _ Hmoved Hold)).
  rewrite insert_insert_eq, in_group_twice, in_group_same, (insert_id _ _ _ Hself).
  by rewrite (bind_inr _ _ _ _ _ (getUnit_live _ _ _ Hself)).
Qed.

(** C2.  A call of [evaluateInContext] that returns leaves the store
    as it found it: the variable is back in its group, and neither
    another attribute of the variable nor any other force of the
    system has changed. *)
Theorem evaluateInContext_restores_the_store self context σ quantity σ' :
  evaluateInContext self context σ = (inr quantity, σ') →
  σ' = σ ∧ forceGroup <$> σ' !! self = forceGroup <$> σ !! self.
Proof.
  intros Hrun. cut (σ' = σ); [by intros ->|].
  unfold evaluateInContext in Hrun.
  apply bind_inr_inv in Hrun as (occupied & σ1 & Hocc & Hrun).
  apply comprehension_groups_store in Hocc as ->.
  apply bind_inr_inv in Hrun as (old_group & σ1 & Hold & Hrun).
  apply getForceGroup_inv in Hold as [-> Hold].
  destruct (Hold _ eq_refl) as (cv & Hself & <-).
  apply bind_inr_inv in Hrun as (new_group & σ1 & Hnew & Hrun).
  assert (σ1 = σ) as ->.
  { unfold first_of in Hnew. destruct (next_iter _); [|done]. by injection Hnew. }
  apply bind_inr_inv in Hrun as ([] & σ1 & Hset & Hrun).
  apply setForceGroup_inv in Hset as (cv' & Hself' & _ & ->).
  assert (cv' = cv) as -> by congruence.
  apply bind_inr_inv in Hrun as (energy & σ1 & Hquery & Hrun).
  assert (σ1 = <[self := in_group cv new_group]> σ) as ->.
  { unfold getPotentialEnergy in Hquery. by injection Hquery. }
  apply bind_inr_inv in Hrun as ([] & σ1 & Hback & Hrun).
  apply setForceGroup_inv in Hback as (moved & Hmoved & _ & ->).
  rewrite lookup_insert_eq in Hmoved. injection Hmoved as <-.
  rewrite insert_insert_eq, in_group_twice, in_group_same, (insert_id _ _ _ Hself)
    in Hrun.
  rewrite (bind_inr _ _ _ _ _ (getUnit_live _ _ _ Hself)) in Hrun.
  by injection Hrun.
Qed.

(** C5, as the code has it.  When every group 0..31 holds a force of
    the system, [evaluateInContext] ends in [StopIteration], raised
    by [next] on the empty set of free groups: before the variable
    changes group and before the engine is asked anything, so the
    store is as it was.  The exception is Python's own. *)
Theorem evaluateInContext_exhausted_stops self context σ cv :
  σ !! self = Some cv →
  live σ (getSystem context) →
  exhausted σ (getSystem context) →
  evaluateInContext self context σ = (inl StopIteration, σ) ∧
  raised_by_engine StopIteration = false.
Proof.
  intros Hself Hlive Hfull. split; [|done]. unfold evaluateInContext.
  rewrite (bind_inr _ _ _ _ _ (comprehension_groups_live _ _ Hlive)).
  rewrite (bind_inr _ _ _ _ _ (getForceGroup_live _ _ _ Hself)).
  apply bind_inl. unfold first_of.
  rewrite (free_groups_exhausted _ _ Hfull).
  destruct (next_iter ∅) as [group|] eqn:Hnext; [|done].
  apply next_iter_elem in Hnext. by apply not_elem_of_empty in Hnext.
Qed.

(** C6.  The group that [evaluateInContext] picks, the first element
    of the free groups, lies between 0 and 31. *)
Theorem selected_group_in_range occupied σ new_group σ' :
  first_of (free_groups occupied) σ = (inr new_group, σ') →
  0 ≤ new_group ≤ 31.
Proof.
  unfold first_of. destruct (next_iter _) as [group|] eqn:Hnext; [|done].
  intros [= <- _]. apply next_iter_elem in Hnext.
  unfold free_groups in Hnext.
  apply elem_of_difference in Hnext as [Hrange _].
  apply elem_of_list_to_set, elem_of_seq in Hrange. lia.
Qed.

(** C7.  [setUnit(u)] followed by [getUnit()] returns [u]; only the
    unit attribute of the variable has changed. *)
Theorem setUnit_then_getUnit self σ cv u :
  σ !! self = Some cv →
  (_ <- setUnit self u;; getUnit self) σ =
    (inr u, <[self := {| forceGroup := forceGroup cv; _unit := Some u;
                         body := body cv |}]> σ).
Proof.
  intros Hself. unfold setUnit.
  rewrite (bind_inr _ _ (A:=()) σ () (<[self := {| forceGroup := forceGroup cv;
    _unit := Some u; body := body cv |}]> σ)).
  - by rewrite (getUnit_live _ _ _ (lookup_insert_eq _ _ _)).
  - by rewrite (bind_inr _ _ _ _ _ (deref_live _ _ _ Hself)).
Qed.
End cvlib_claims.

(** ** The constructor of [RadiusOfGyration] *)

Section radius_of_gyration.
Import Cvlib.
Implicit Types (σ : Store) (self : loc) (b : CentroidBond).

Lemma string_app_assoc (s1 s2 s3 : string) :
  (s1 +:+ s2) +:+ s3 = s1 +:+ (s2 +:+ s3).
Proof.
  induction s1 as [|c s1 IH]; [done|].
  change (String c ((s1 +:+ s2) +:+ s3) = String c (s1 +:+ (s2 +:+ s3))).
  by rewrite IH.
Qed.

Lemma on_centroid_bond_live {A} σ self o b (f : CentroidBond → Exn + A * CentroidBond) a b' :
  σ !! self = Some o → body o = CustomCentroidBondForce b → f b = inr (a, b') →
  on_centroid_bond self f σ =
    (inr a, <[self := {| forceGroup := forceGroup o; _unit := _unit o;
                         body := CustomCentroidBondForce b' |}]> σ).
Proof.
  intros Hself Hbody Hf. unfold on_centroid_bond.
  rewrite (bind_inr _ _ _ _ _ (deref_live _ _ _ Hself)). by rewrite Hbody, Hf.
Qed.

(** The loop [for atom in atoms: self.addGroup([atom], [1])] appends
    one single-atom group of weight 1 per atom, in order. *)
Lemma add_single_atom_groups σ self group unit b atoms :
  Forall fits_int atoms →
  σ !! self = Some {| forceGroup := group; _unit := unit;
                      body := CustomCentroidBondForce b |} →
  for_each atoms (λ atom, _ <- addGroup self [atom] [1%Z];; ret ()) σ =
    (inr (),
     <[self := {| forceGroup := group; _unit := unit;
                  body := CustomCentroidBondForce
                    {| numGroupsPerBond := numGroupsPerBond b;
                       energyFunction := energyFunction b;
                       groups := groups b ++ map (λ atom, ([atom], [1%Z])) atoms;
                       bonds := bonds b;
                       usesPeriodicBoundaryConditions :=
                         usesPeriodicBoundaryConditions b |} |}]> σ).
Proof.
  intros Hints. revert σ b.
  induction Hints as [|atom atoms Hint Hints IH]; intros σ b Hself; simpl.
  - rewrite app_nil_r. unfold ret. f_equal. symmetry. apply insert_id.
    rewrite Hself. by destruct b.
  - unfold addGroup.
    erewrite bind_inr; last first.
    { erewrite bind_inr; [done|].
      eapply on_centroid_bond_live; [done..|].
      rewrite decide_False by (intros Hno; apply Hno; by apply Forall_singleton).
      by rewrite decide_False by (simpl; lia). }
    erewrite IH by apply lookup_insert_eq. simpl.
    by rewrite insert_insert_eq, <- app_assoc.
Qed.

Lemma render_distance_term n i :
  render (squared (distance (g (i + 1)) (g (n + 1)))) = distance_term (n + 1) i.
Proof.
  unfold distance_term. cbn [render]. by rewrite !string_app_assoc.
Qed.

(** The string that [__init__] assembles is the rendering of the
    radius-of-gyration term. *)
Lemma energy_expression_renders n :
  "sqrt((" +:+ join "+" (map (distance_term (n + 1)) (seq 0 n))
    +:+ ")/" +:+ pretty n +:+ ")" = render (radius_of_gyration_expr n).
Proof.
  unfold radius_of_gyration_expr, join. cbn [render].
  rewrite length_map, length_seq, map_map.
  rewrite (map_ext _ _ (λ i, render_distance_term n i)).
  by rewrite !string_app_assoc.
Qed.

Lemma fits_int_seq n :
  (Z.of_nat n ≤ 2147483648)%Z → Forall (λ i, fits_int (Z.of_nat i)) (seq 0 n).
Proof.
  intros Hn. apply Forall_forall. intros i Hi%elem_of_seq. unfold fits_int. lia.
Qed.

(** The force that [RadiusOfGyration(atoms)] builds. *)
Lemma RadiusOfGyration_run σ atoms :
  engine_ints atoms →
  RadiusOfGyration atoms σ =
    (inr (fresh (dom σ)),
     <[fresh (dom σ) :=
         {| forceGroup := 0; _unit := Some nanometers;
            body := CustomCentroidBondForce
              {| numGroupsPerBond := length atoms + 1;
                 energyFunction := render (radius_of_gyration_expr (length atoms));
                 groups := map (λ atom, ([atom], [1%Z])) atoms
                             ++ [(atoms, replicate (length atoms) 1%Z)];
                 bonds := [(seq 0 (length atoms + 1), [])];
                 usesPeriodicBoundaryConditions := false |} |}]> σ).
Proof.
  intros [Hints Hcount]. unfold RadiusOfGyration.
  rewrite (bind_inr get _ σ σ σ eq_refl).
  unfold RadiusOfGyration___init__.
  rewrite energy_expression_renders.
  erewrite bind_inr; last first.
  { unfold CustomCentroidBondForce___init__.
    rewrite decide_True by (unfold fits_int; lia).
    erewrite bind_inr; [|done].
    erewrite bind_inr by (by apply add_single_atom_groups, lookup_insert_eq).
    rewrite insert_insert_eq. simpl.
    unfold addGroup. erewrite bind_inr; last first.
    { eapply on_centroid_bond_live; [apply lookup_insert_eq|done|]. simpl.
      rewrite decide_False by (by intros Hno).
      rewrite decide_False; [done|]. rewrite length_replicate. lia. }
    rewrite insert_insert_eq. simpl.
    unfold addBond. erewrite bind_inr; last first.
    { eapply on_centroid_bond_live; [apply lookup_insert_eq|done|]. simpl.
      rewrite decide_False by (intros Hno; apply Hno, fits_int_seq; lia).
      rewrite decide_True; [done|]. by rewrite length_seq. }
    rewrite insert_insert_eq. simpl.
    unfold setUsesPeriodicBoundaryConditions. erewrite bind_inr; last first.
    { eapply on_centroid_bond_live; [apply lookup_insert_eq|done..]. }
    rewrite insert_insert_eq. simpl.
    unfold setUnit. erewrite bind_inr by (by apply deref_live, lookup_insert_eq).
    simpl. by rewrite insert_insert_eq. }
  done.
Qed.

End radius_of_gyration.

(** ** The cvlib claims on the reference engine *)

Section cvlib_reference.
Import Cvlib Reference.

Lemma unoccupied_by_computation (σ : Store) system group :
  bool_decide (group ∈ free_groups (occupied_groups σ system)) = true →
  unoccupied σ system group.
Proof. intros Hin%bool_decide_eq_true. by apply elem_of_free_groups in Hin as [_ ?]. Qed.

Lemma exhausted_by_computation (σ : Store) system :
  bool_decide (free_groups (occupied_groups σ system) = ∅) = true →
  exhausted σ system.
Proof.
  intros Hempty%bool_decide_eq_true group Hle.
  destruct (decide (group ∈ occupied_groups σ system)) as [Hin|Hout].
  - by apply elem_of_occupied_groups in Hin.
  - assert (group ∈ free_groups (occupied_groups σ system)) as Hfree.
    { unfold free_groups. apply elem_of_difference.
      rewrite !elem_of_list_to_set, elem_of_seq. split; [lia|done]. }
    rewrite Hempty in Hfree. by apply not_elem_of_empty in Hfree.
Qed.

Lemma live_by_computation (σ : Store) system :
  forallb (λ l, bool_decide (is_Some (σ !! l))) system = true → live σ system.
Proof.
  unfold live. rewrite forallb_forall, Forall_forall.
  intros Hall l Hl. eapply bool_decide_eq_true_1, Hall. by apply list_elem_of_In.
Qed.

Example evaluateInContext_three_forces :
  evaluateInContext 1%positive (crowded_context 3) (crowded 3) =
    (inr (mkQuantity 1%Z dimensionless), crowded 3).
Proof. vm_compute. reflexivity. Qed.

Example RadiusOfGyration_three_atoms :
  (RadiusOfGyration [5%Z; 7%Z; 11%Z] ∅).1 = inr 1%positive ∧
  (body <$> (RadiusOfGyration [5%Z; 7%Z; 11%Z] ∅).2 !! 1%positive) =
    Some (CustomCentroidBondForce
            {| numGroupsPerBond := 4;
               energyFunction :=
                 "sqrt((distance(g1, g4)^2+distance(g2, g4)^2+distance(g3, g4)^2)/3)";
               groups := [([5%Z], [1%Z]); ([7%Z], [1%Z]); ([11%Z], [1%Z]);
                          ([5%Z; 7%Z; 11%Z], [1%Z; 1%Z; 1%Z])];
               bonds := [([0; 1; 2; 3], [])];
               usesPeriodicBoundaryConditions := false |}).
Proof. split; vm_compute; reflexivity. Qed.



Lemma evaluateInContext_isolates_a_free_group_witness :
  ∃ new_group,
    unoccupied (crowded 3) (getSystem (crowded_context 3)) new_group ∧
    let moved := <[1%positive := in_group (plain_force 0) new_group]> (crowded 3) in
    evaluateInContext 1%positive (crowded_context 3) (crowded 3) =
      match potential_energy (simulation (crowded_context 3))
              (getSystem (crowded_context 3)) moved {[new_group]} with
      | inr energy =>
          (inr (mkQuantity (value_in_md_unit_system energy) dimensionless), crowded 3)
      | inl e => (inl e, moved)
      end.
Proof.
  apply (evaluateInContext_isolates_a_free_group
           1%positive (crowded_context 3) (crowded 3) (plain_force 0)).
  - vm_compute. reflexivity.
  - simpl. lia.
  - apply live_by_computation. vm_compute. reflexivity.
  - exists 7. split; [lia|]. apply unoccupied_by_computation. vm_compute. reflexivity.
Defined.

Lemma evaluateInContext_restores_the_store_witness :
  crowded 3 = crowded 3 ∧
  forceGroup <$> crowded 3 !! 1%positive = forceGroup <$> crowded 3 !! 1%positive.
Proof.
  apply (evaluateInContext_restores_the_store
           1%positive (crowded_context 3) (crowded 3) (mkQuantity 1%Z dimensionless)).
  vm_compute. reflexivity.
Defined.

Lemma evaluateInContext_exhausted_stops_witness :
  evaluateInContext 1%positive (crowded_context 32) (crowded 32) =
    (inl StopIteration, crowded 32) ∧
  raised_by_engine StopIteration = false.
Proof.
  apply (evaluateInContext_exhausted_stops
           1%positive (crowded_context 32) (crowded 32) (plain_force 0)).
  - vm_compute. reflexivity.
  - apply live_by_computation. vm_compute. reflexivity.
  - apply exhausted_by_computation. vm_compute. reflexivity.
Defined.

(** C5, as the spec has it, fails: 32 forces fill the 32 groups, and
    what [evaluateInContext] raises is not an engine exception. *)
Lemma exhaustion_is_not_an_engine_error :
  exhausted (crowded 32) (getSystem (crowded_context 32)) ∧
  ¬ ∃ msg, (evaluateInContext 1%positive (crowded_context 32) (crowded 32)).1 =
             inl (OpenMMException msg).
Proof.
  split.
  - apply exhausted_by_computation. vm_compute. reflexivity.
  - intros [msg Hmsg]. vm_compute in Hmsg. discriminate Hmsg.
Qed.

Lemma selected_group_in_range_witness : 0 ≤ 30 ≤ 31.
Proof.
  apply (selected_group_in_range [0; 1; 2] (crowded 3) 30 (crowded 3)).
  vm_compute. reflexivity.
Defined.

Lemma setUnit_then_getUnit_witness :
  (_ <- setUnit 1%positive nanometers;; getUnit 1%positive) (crowded 3) =
    (inr nanometers,
     <[1%positive := {| forceGroup := 0; _unit := Some nanometers;
                        body := EngineForce "HarmonicBondForce" |}]> (crowded 3)).
Proof.
  apply (setUnit_then_getUnit 1%positive (crowded 3) (plain_force 0) nanometers).
  vm_compute. reflexivity.
Defined.
End cvlib_reference.


(** ** cvpack *)

Section cvpack_facts.
Import Cvpack.
Context `{Host}.
Implicit Types (w : World) (l self force p : loc).

Lemma cvpack_deref_live w l o : heap w !! l = Some o → deref l w = (inr o, w).
Proof. unfold deref. by intros ->. Qed.

(** Serializing reads the world and leaves it alone. *)
Lemma XmlSerializer_serialize_pure force w : (XmlSerializer_serialize force w).2 = w.
Proof.
  unfold XmlSerializer_serialize, bind, deref, get, lift, raise.
  destruct (heap w !! force) as [o|]; [|done].
  destruct (ob_dict o !! "this") as [[p| | |]|]; try done.
  by destruct (engine w !! p).
Qed.

Lemma XmlSerializer_serialize_engine_object force w xml :
  (XmlSerializer_serialize force w).1 = inr xml →
  ∃ f, engine_object w force = Some f ∧ xml_serialize f = inr xml.
Proof.
  unfold XmlSerializer_serialize, engine_object, bind, deref, get, lift, raise.
  destruct (heap w !! force) as [o|]; [|done].
  destruct (ob_dict o !! "this") as [[p| | |]|]; try done.
  destruct (engine w !! p) as [f|]; [|done]. intros Hxml. by exists f.
Qed.

Lemma fresh_heap_lookup {A} (m : gmap loc A) : m !! fresh (dom m) = None.
Proof. apply not_elem_of_dom, is_fresh. Qed.

Lemma fresh_heap_ne {A} (m : gmap loc A) l x : m !! l = Some x → fresh (dom m) ≠ l.
Proof. intros Hl <-. by rewrite fresh_heap_lookup in Hl. Qed.

Lemma object___new___outcome cls w :
  object___new__ cls w =
    (inr (fresh (dom (heap w))),
     {| heap := <[fresh (dom (heap w)) := {| ob_class := cls; ob_dict := ∅ |}]> (heap w);
        engine := engine w; wrapper_bases := wrapper_bases w |}).
Proof. done. Qed.

(** Deserializing allocates one engine object and one proxy for it,
    both at unused places, or fails without a trace. *)
Lemma XmlSerializer_deserialize_outcome xml w :
  XmlSerializer_deserialize xml w =
    match xml_deserialize xml with
    | inl e => (inl e, w)
    | inr f =>
        let p := fresh (dom (engine w)) in
        let copy := fresh (dom (heap w)) in
        (inr copy,
         {| heap := <[copy := {| ob_class := C_engine (type_name f);
                                 ob_dict := {["this" := VThis p]} |}]> (heap w);
            engine := <[p := f]> (engine w);
            wrapper_bases := wrapper_bases w |})
    end.
Proof.
  unfold XmlSerializer_deserialize, bind, lift, get, put, object___new__, store, ret.
  destruct (xml_deserialize xml) as [e|f]; [done|]. simpl.
  by rewrite insert_insert_eq.
Qed.

Lemma serialize_or_text openmmForce w :
  (match openmmForce with
   | force_object f => XmlSerializer_serialize f
   | xml_text s => ret s
   end) w = (document openmmForce w, w).
Proof.
  destruct openmmForce as [f|s]; [|done]. simpl.
  rewrite <- (XmlSerializer_serialize_pure f w) at 3.
  by destruct (XmlSerializer_serialize f w).
Qed.

Lemma setattr_live w self o name v :
  heap w !! self = Some o →
  setattr self name v w =
    (inr (), {| heap := <[self := {| ob_class := ob_class o;
                                     ob_dict := <[name := v]> (ob_dict o) |}]> (heap w);
                engine := engine w; wrapper_bases := wrapper_bases w |}).
Proof.
  intros Hself. unfold setattr.
  by rewrite (bind_inr _ _ _ _ _ (cvpack_deref_live _ _ _ Hself)).
Qed.

Lemma as_force_live w self o p f :
  heap w !! self = Some o → ob_dict o !! "this" = Some (VThis p) →
  engine w !! p = Some f →
  as_force self w =
    (if force_type (type_name f) then inr ()
     else inl (TypeError "the object is not a Force"), w).
Proof.
  intros Hself Hthis Hp. unfold as_force.
  rewrite (bind_inr _ _ _ _ _ (cvpack_deref_live _ _ _ Hself)). rewrite Hthis.
  rewrite (bind_inr get _ w w w eq_refl). rewrite Hp.
  by destruct (force_type (type_name f)).
Qed.

(** [__init__], executed symbolically on an instance of
    [OpenMMForceWrapper] whose [__dict__] is [d]. *)
Lemma OpenMMForceWrapper___init___outcome self openmmForce unit period w d :
  heap w !! self = Some {| ob_class := C_OpenMMForceWrapper; ob_dict := d |} →
  OpenMMForceWrapper___init__ self openmmForce unit period w =
    match document openmmForce w with
    | inl e => (inl e, w)
    | inr xml =>
        match xml_deserialize xml with
        | inl e => (inl e, w)
        | inr f =>
            let p := fresh (dom (engine w)) in
            let copy := fresh (dom (heap w)) in
            let cls := C_engine (type_name f) in
            let h2 := <[copy := {| ob_class := cls; ob_dict := {["this" := VThis p]} |}]>
                        (heap w) in
            let updated := {["this" := VThis p]} ∪ d in
            if decide (NoDup (wrapper_bases w ++ [cls]))
            then
              if force_type (type_name f)
              then (inr (),
                    {| heap := <[self := {| ob_class := C_OpenMMForceWrapper;
                                            ob_dict := registered_dict updated unit period |}]> h2;
                       engine := <[p := f]> (engine w);
                       wrapper_bases := wrapper_bases w ++ [cls] |})
              else (inl (TypeError "the object is not a Force"),
                    {| heap := <[self := {| ob_class := C_OpenMMForceWrapper;
                                            ob_dict := updated |}]> h2;
                       engine := <[p := f]> (engine w);
                       wrapper_bases := wrapper_bases w ++ [cls] |})
            else (inl (TypeError "duplicate base class"),
                  {| heap := <[self := {| ob_class := C_OpenMMForceWrapper;
                                          ob_dict := updated |}]> h2;
                     engine := <[p := f]> (engine w);
                     wrapper_bases := wrapper_bases w |})
        end
    end.
Proof.
  intros Hself. unfold OpenMMForceWrapper___init__.
  destruct (document openmmForce w) as [e|xml] eqn:Hdoc.
  { apply bind_inl. by rewrite serialize_or_text, Hdoc. }
  rewrite (bind_inr _ _ w xml w) by (by rewrite serialize_or_text, Hdoc).
  destruct (xml_deserialize xml) as [e|f] eqn:Hxml.
  { apply bind_inl. by rewrite XmlSerializer_deserialize_outcome, Hxml. }
  cbv zeta.
  set (p := fresh (dom (engine w))). set (copy := fresh (dom (heap w))).
  set (cls := C_engine (type_name f)).
  set (copy_o := {| ob_class := cls; ob_dict := {["this" := VThis p]} |}).
  set (h2 := <[copy := copy_o]> (heap w)).
  set (w2 := {| heap := h2; engine := <[p := f]> (engine w);
                wrapper_bases := wrapper_bases w |}).
  rewrite (bind_inr _ _ w copy w2) by (by rewrite XmlSerializer_deserialize_outcome, Hxml).
  assert (copy ≠ self) as Hne by (by eapply fresh_heap_ne).
  assert (heap w2 !! self = Some {| ob_class := C_OpenMMForceWrapper; ob_dict := d |})
    as Hself2 by (simpl; unfold h2; by rewrite lookup_insert_ne).
  assert (heap w2 !! copy = Some copy_o) as Hcopy2 by apply lookup_insert_eq.
  set (o3 := {| ob_class := C_OpenMMForceWrapper; ob_dict := {["this" := VThis p]} ∪ d |}).
  set (w3 := {| heap := <[self := o3]> h2; engine := <[p := f]> (engine w);
                wrapper_bases := wrapper_bases w |}).
  rewrite (bind_inr _ _ w2 () w3); last first.
  { unfold dict_update.
    rewrite (bind_inr _ _ _ _ _ (cvpack_deref_live w2 self _ Hself2)).
    by rewrite (bind_inr _ _ _ _ _ (cvpack_deref_live w2 copy _ Hcopy2)). }
  assert (heap w3 !! self = Some o3) as Hself3 by apply lookup_insert_eq.
  assert (heap w3 !! copy = Some copy_o) as Hcopy3
    by (simpl; by rewrite lookup_insert_ne).
  rewrite (bind_inr _ _ _ _ _ (cvpack_deref_live w3 self _ Hself3)).
  rewrite (bind_inr _ _ _ _ _ (cvpack_deref_live w3 copy _ Hcopy3)).
  rewrite (bind_inr get _ w3 w3 w3 eq_refl). simpl.
  case_decide as Hdup; [|by apply bind_inl].
  set (w4 := {| heap := <[self := o3]> h2; engine := <[p := f]> (engine w);
                wrapper_bases := wrapper_bases w ++ [cls] |}).
  rewrite (bind_inr _ _ w3 () w4) by done.
  assert (heap w4 !! self = Some o3) as Hself4 by apply lookup_insert_eq.
  assert (as_force self w4 =
            (if force_type (type_name f) then inr ()
             else inl (TypeError "the object is not a Force"), w4)) as Hforce.
  { apply (as_force_live w4 self o3 p f); [done| |apply lookup_insert_eq].
    apply lookup_union_Some_l, lookup_singleton_eq. }
  unfold _registerCV. destruct (force_type (type_name f)).
  2: { apply bind_inl. by apply bind_inl. }
  erewrite bind_inr; last first.
  { rewrite (bind_inr _ _ _ _ _ Hforce). by apply setattr_live. }
  simpl. rewrite insert_insert_eq.
  destruct period as [q|]; [|done].
  unfold _registerPeriod. erewrite setattr_live by apply lookup_insert_eq.
  simpl. by rewrite insert_insert_eq.
Qed.

(** The whole constructor, executed symbolically. *)
Lemma OpenMMForceWrapper_outcome openmmForce unit period w :
  let self := fresh (dom (heap w)) in
  let h1 := <[self := {| ob_class := C_OpenMMForceWrapper; ob_dict := ∅ |}]> (heap w) in
  let w1 := {| heap := h1; engine := engine w; wrapper_bases := wrapper_bases w |} in
  OpenMMForceWrapper openmmForce unit period w =
    match document openmmForce w1 with
    | inl e => (inl e, w1)
    | inr xml =>
        match xml_deserialize xml with
        | inl e => (inl e, w1)
        | inr f =>
            let p := fresh (dom (engine w)) in
            let copy := fresh (dom h1) in
            let cls := C_engine (type_name f) in
            let h2 := <[copy := {| ob_class := cls; ob_dict := {["this" := VThis p]} |}]> h1 in
            if decide (NoDup (wrapper_bases w ++ [cls]))
            then
              if force_type (type_name f)
              then (inr self,
                    {| heap := <[self := {| ob_class := C_OpenMMForceWrapper;
                                            ob_dict := wrapper_dict p unit period |}]> h2;
                       engine := <[p := f]> (engine w);
                       wrapper_bases := wrapper_bases w ++ [cls] |})
              else (inl (TypeError "the object is not a Force"),
                    {| heap := <[self := {| ob_class := C_OpenMMForceWrapper;
                                            ob_dict := {["this" := VThis p]} ∪ ∅ |}]> h2;
                       engine := <[p := f]> (engine w);
                       wrapper_bases := wrapper_bases w ++ [cls] |})
            else (inl (TypeError "duplicate base class"),
                  {| heap := <[self := {| ob_class := C_OpenMMForceWrapper;
                                          ob_dict := {["this" := VThis p]} ∪ ∅ |}]> h2;
                     engine := <[p := f]> (engine w);
                     wrapper_bases := wrapper_bases w |})
        end
    end.
Proof.
  intros self h1 w1. unfold OpenMMForceWrapper.
  rewrite (bind_inr _ _ _ _ _ (object___new___outcome C_OpenMMForceWrapper w)).
  fold self. fold h1. fold w1. unfold bind.
  rewrite (OpenMMForceWrapper___init___outcome self openmmForce unit period w1 ∅)
    by apply lookup_insert_eq.
  destruct (document openmmForce w1) as [e|xml]; [done|].
  destruct (xml_deserialize xml) as [e|f]; [done|].
  cbv zeta. simpl. case_decide; [|done]. by destruct (force_type (type_name f)).
Qed.
End cvpack_facts.

Section cvpack_claims.
Import Cvpack.
Context `{Host}.
Implicit Types (w : World) (l self force p : loc) (cls : PyClass).

(** A class that is among the bases of [OpenMMForceWrapper] is one
    of its ancestors. *)
Lemma issubclass_base w cls :
  cls ∈ wrapper_bases w → issubclass w C_OpenMMForceWrapper cls = true.
Proof.
  intros Hin. apply bool_decide_eq_true_2. simpl. apply elem_of_cons. right.
  apply list_elem_of_In, in_flat_map. exists cls. split; [by apply list_elem_of_In|].
  by left.
Qed.

Lemma isinstance_wrapper w l o cls :
  heap w !! l = Some o → ob_class o = C_OpenMMForceWrapper →
  cls ∈ wrapper_bases w → isinstance w l cls = true.
Proof.
  intros Hl Hclass Hin. unfold isinstance. rewrite Hl, Hclass. by apply issubclass_base.
Qed.

Lemma engine_object_alloc w force o' f0 :
  engine_object {| heap := <[fresh (dom (heap w)) := {| ob_class := o'; ob_dict := ∅ |}]> (heap w);
                   engine := engine w; wrapper_bases := wrapper_bases w |} force = Some f0 →
  engine_object w force = Some f0.
Proof.
  unfold engine_object. simpl.
  destruct (decide (fresh (dom (heap w)) = force)) as [<-|Hne].
  - rewrite lookup_insert_eq. simpl. by rewrite lookup_empty.
  - by rewrite lookup_insert_ne.
Qed.

(** A construction that returns has gone through every step. *)
Lemma OpenMMForceWrapper_returns openmmForce unit period w self w' :
  OpenMMForceWrapper openmmForce unit period w = (inr self, w') →
  ∃ xml f,
    source_of w openmmForce xml ∧ xml_deserialize xml = inr f ∧
    NoDup (wrapper_bases w ++ [C_engine (type_name f)]) ∧
    self = fresh (dom (heap w)) ∧
    let h1 := <[self := {| ob_class := C_OpenMMForceWrapper; ob_dict := ∅ |}]> (heap w) in
    let p := fresh (dom (engine w)) in
    let copy := fresh (dom h1) in
    w' = {| heap := <[self := {| ob_class := C_OpenMMForceWrapper;
                                 ob_dict := wrapper_dict p unit period |}]>
                      (<[copy := {| ob_class := C_engine (type_name f);
                                    ob_dict := {["this" := VThis p]} |}]> h1);
            engine := <[p := f]> (engine w);
            wrapper_bases := wrapper_bases w ++ [C_engine (type_name f)] |}.
Proof.
  rewrite OpenMMForceWrapper_outcome. cbv zeta.
  destruct (document _ _) as [e|xml] eqn:Hdoc; [done|].
  destruct (xml_deserialize xml) as [e|f] eqn:Hxml; [done|].
  case_decide as Hdup; [|done].
  destruct (force_type (type_name f)); [|done]. intros [= <- <-].
  exists xml, f. split; [|done].
  destruct openmmForce as [force|s]; simpl in *; [|by injection Hdoc].
  apply XmlSerializer_serialize_engine_object in Hdoc as (f0 & Hobj & Hser).
  exists f0. split; [|done]. by eapply engine_object_alloc.
Qed.


(** C4.  Whatever the outcome of the construction, the force object
    it was given is as before: its Python object is the same, every
    engine object that existed is the same, and so is the engine
    object behind the force.  When the construction returns, the
    wrapper holds a handle that did not exist before: it shares
    nothing with the input. *)
Theorem input_force_unchanged force unit period w o :
  heap w !! force = Some o →
  let run := OpenMMForceWrapper (force_object force) unit period w in
  heap run.2 !! force = Some o ∧
  (∀ p f, engine w !! p = Some f → engine run.2 !! p = Some f) ∧
  engine_object run.2 force = engine_object w force ∧
  (∀ self, run.1 = inr self →
     ∃ p, ob_dict <$> heap run.2 !! self = Some (wrapper_dict p unit period) ∧
          engine w !! p = None).
Proof.
  intros Hforce run.
  assert (fresh (dom (heap w)) ≠ force) as Hself by (by eapply fresh_heap_ne).
  set (h1 := <[fresh (dom (heap w)) :=
                 {| ob_class := C_OpenMMForceWrapper; ob_dict := ∅ |}]> (heap w)).
  assert (h1 !! force = Some o) as Hforce1 by (unfold h1; by rewrite lookup_insert_ne).
  assert (fresh (dom h1) ≠ force) as Hcopy by (by eapply fresh_heap_ne).
  assert (heap run.2 !! force = Some o ∧
          (∀ p f, engine w !! p = Some f → engine run.2 !! p = Some f)) as [Hheap Hengine].
  { unfold run. rewrite OpenMMForceWrapper_outcome. cbv zeta. fold h1.
    destruct (document _ _) as [e|xml]; [done|].
    destruct (xml_deserialize xml) as [e|f]; [done|].
    assert (∀ p f0, engine w !! p = Some f0 →
              <[fresh (dom (engine w)) := f]> (engine w) !! p = Some f0) as Hkept.
    { intros p f0 Hp. rewrite lookup_insert_ne; [done|]. by eapply fresh_heap_ne. }
    case_decide; [destruct (force_type (type_name f))|]; simpl;
      by rewrite !lookup_insert_ne. }
  split; [done|]. split; [done|]. split.
  - unfold engine_object. rewrite Hheap, Hforce.
    destruct (ob_dict o !! "this") as [[p| | |]|] eqn:Hthis; try done.
    destruct (engine w !! p) as [f|] eqn:Hp; [by apply Hengine|].
    destruct (engine run.2 !! p) as [f|] eqn:Hp'; [|done]. exfalso.
    revert Hp'. unfold run. rewrite OpenMMForceWrapper_outcome. cbv zeta.
    destruct (document _ _) as [e|xml] eqn:Hdoc; simpl; [congruence|].
    apply XmlSerializer_serialize_engine_object in Hdoc as (f0 & Hobj & _).
    apply engine_object_alloc in Hobj. unfold engine_object in Hobj.
    rewrite Hforce, Hthis in Hobj. congruence.
  - intros self Hrun. destruct run as [r w'] eqn:Hrun'. simpl in Hrun. subst r.
    apply OpenMMForceWrapper_returns in Hrun' as (xml & f & _ & _ & _ & -> & ->).
    exists (fresh (dom (engine w))). simpl. rewrite lookup_insert_eq.
    split; [done|]. apply fresh_heap_lookup.
Qed.

(** C8.  A wrapper that has been constructed carries a period
    exactly when one was given: its attribute [_period] holds the
    period argument when that is not [None], and is absent when it
    is [None]. *)
Theorem period_registered_iff_given openmmForce unit period w self w' :
  OpenMMForceWrapper openmmForce unit period w = (inr self, w') →
  ∃ o, heap w' !! self = Some o ∧
       ob_dict o !! "_period" = VQuantity <$> period ∧
       (is_Some (ob_dict o !! "_period") ↔ period ≠ None).
Proof.
  intros Hrun.
  apply OpenMMForceWrapper_returns in Hrun as (xml & f & _ & _ & _ & -> & ->).
  eexists. split; [apply lookup_insert_eq|]. cbn [ob_dict].
  assert (wrapper_dict (fresh (dom (engine w))) unit period !! "_period"
          = VQuantity <$> period) as ->.
  { unfold wrapper_dict, registered_dict. destruct period as [q|]; simpl.
    - apply lookup_insert_eq.
    - rewrite lookup_insert_ne by done. apply lookup_union_None_2; [|done].
      by apply lookup_singleton_ne. }
  split; [done|]. rewrite <- not_eq_None_Some. by destruct period.
Qed.

(** C10.  A construction that returns has appended the class of the
    deserialized force to the bases of [OpenMMForceWrapper] itself.
    Every wrapper that existed before is from then on an instance of
    that class, and so is every wrapper that a later construction
    returns. *)
Theorem construction_extends_the_class openmmForce unit period w self w' :
  OpenMMForceWrapper openmmForce unit period w = (inr self, w') →
  ∃ xml f,
    source_of w openmmForce xml ∧ xml_deserialize xml = inr f ∧
    let cls := C_engine (type_name f) in
    __bases__ w' C_OpenMMForceWrapper = __bases__ w C_OpenMMForceWrapper ++ [cls] ∧
    (∀ l o, heap w !! l = Some o → ob_class o = C_OpenMMForceWrapper →
       heap w' !! l = Some o ∧ isinstance w' l cls = true) ∧
    (∀ openmmForce2 unit2 period2 self2 w'',
       OpenMMForceWrapper openmmForce2 unit2 period2 w' = (inr self2, w'') →
       isinstance w'' self2 cls = true ∧ isinstance w'' self cls = true).
Proof.
  intros Hrun.
  apply OpenMMForceWrapper_returns in Hrun as (xml & f & Hsrc & Hxml & _ & -> & ->).
  exists xml, f. split; [done|]. split; [done|]. cbv zeta.
  set (self := fresh (dom (heap w))).
  set (h1 := <[self := {| ob_class := C_OpenMMForceWrapper; ob_dict := ∅ |}]> (heap w)).
  set (cls := C_engine (type_name f)).
  split; [done|]. split.
  - intros l o Hl Hclass.
    assert (self ≠ l) as Hne by (by eapply fresh_heap_ne).
    assert (h1 !! l = Some o) as Hl1 by (unfold h1; by rewrite lookup_insert_ne).
    assert (fresh (dom h1) ≠ l) as Hne1 by (by eapply fresh_heap_ne).
    assert (∀ o1 o2, <[self := o1]> (<[fresh (dom h1) := o2]> h1) !! l = Some o) as Hkept.
    { intros o1 o2. by rewrite !lookup_insert_ne. }
    split; [apply Hkept|].
    eapply isinstance_wrapper; [apply Hkept|done|]. simpl.
    apply elem_of_app. right. by apply list_elem_of_singleton.
  - intros openmmForce2 unit2 period2 self2 w'' Hrun2.
    apply OpenMMForceWrapper_returns in Hrun2 as (xml2 & f2 & _ & _ & _ & -> & ->).
    cbn [heap wrapper_bases engine].
    set (h3 := <[self := _]> _).
    assert (cls ∈ (wrapper_bases w ++ [cls]) ++ [C_engine (type_name f2)]) as Hin.
    { apply elem_of_app. left. apply elem_of_app. right. by apply list_elem_of_singleton. }
    set (wrapper := {| ob_class := C_OpenMMForceWrapper;
                       ob_dict := wrapper_dict (fresh (dom (engine w))) unit period |}).
    assert (h3 !! self = Some wrapper) as Hself3 by apply lookup_insert_eq.
    assert (fresh (dom h3) ≠ self) as Hne3 by (by eapply fresh_heap_ne).
    set (h4 := <[fresh (dom h3) := {| ob_class := C_OpenMMForceWrapper; ob_dict := ∅ |}]> h3).
    assert (h4 !! self = Some wrapper) as Hself4 by (unfold h4; by rewrite lookup_insert_ne).
    assert (fresh (dom h4) ≠ self) as Hne4 by (by eapply fresh_heap_ne).
    split.
    + eapply isinstance_wrapper; [apply lookup_insert_eq|done|done].
    + apply (isinstance_wrapper _ self wrapper cls); [|done|done]. cbn [heap].
      by rewrite !lookup_insert_ne.
Qed.
End cvpack_claims.

(** ** The cvpack claims on the reference host *)

Section cvpack_reference.
Import Cvpack ReferenceHost.

Example first_wrapper_returns : first_wrapper.1 = inr 3%positive.
Proof. vm_compute. reflexivity. Qed.


(** Text that deserializes to an object that is not a force: its
    class has been appended to the bases by the time the
    registration is refused. *)
Example wrapper_of_an_integrator :
  let run := OpenMMForceWrapper (xml_text "VerletIntegrator") radian None two_angles in
  run.1 = inl (TypeError "the object is not a Force") ∧
  wrapper_bases run.2 = [C_BaseCollectiveVariable; C_engine "VerletIntegrator"].
Proof. split; vm_compute; reflexivity. Qed.


Lemma input_force_unchanged_witness :
  heap first_wrapper.2 !! 1%positive = Some (angle_proxy 1%positive) ∧
  (∀ p f, engine two_angles !! p = Some f → engine first_wrapper.2 !! p = Some f) ∧
  engine_object first_wrapper.2 1%positive = engine_object two_angles 1%positive ∧
  (∀ self, first_wrapper.1 = inr self →
     ∃ p, ob_dict <$> heap first_wrapper.2 !! self = Some (wrapper_dict p radian (Some two_pi)) ∧
          engine two_angles !! p = None).
Proof.
  apply (input_force_unchanged 1%positive radian (Some two_pi) two_angles
           (angle_proxy 1%positive)).
  vm_compute. reflexivity.
Defined.

Lemma period_registered_iff_given_witness :
  ∃ o, heap first_wrapper.2 !! 3%positive = Some o ∧
       ob_dict o !! "_period" = VQuantity <$> Some two_pi ∧
       (is_Some (ob_dict o !! "_period") ↔ Some two_pi ≠ None).
Proof.
  apply (period_registered_iff_given
           (force_object 1%positive) radian (Some two_pi) two_angles 3%positive).
  vm_compute. reflexivity.
Defined.

Lemma construction_extends_the_class_witness :
  ∃ xml f,
    source_of two_angles (force_object 1%positive) xml ∧ xml_deserialize xml = inr f ∧
    let cls := C_engine (type_name f) in
    __bases__ first_wrapper.2 C_OpenMMForceWrapper =
      __bases__ two_angles C_OpenMMForceWrapper ++ [cls] ∧
    (∀ l o, heap two_angles !! l = Some o → ob_class o = C_OpenMMForceWrapper →
       heap first_wrapper.2 !! l = Some o ∧ isinstance first_wrapper.2 l cls = true) ∧
    (∀ openmmForce2 unit2 period2 self2 w'',
       OpenMMForceWrapper openmmForce2 unit2 period2 first_wrapper.2 = (inr self2, w'') →
       isinstance w'' self2 cls = true ∧ isinstance w'' 3%positive cls = true).
Proof.
  apply (construction_extends_the_class
           (force_object 1%positive) radian (Some two_pi) two_angles 3%positive
           first_wrapper.2).
  vm_compute. reflexivity.
Defined.
End cvpack_reference.

(** * Further properties *)

(** ** [evaluateInContext]: the temporary group *)

Section cvlib_more.
Import Cvlib.
Context `{Engine} `{SetIter}.
Implicit Types (σ : Store) (self l : loc) (cv f : Force) (context : Context).

Lemma next_free_group σ system new_group :
  next_iter (free_groups (occupied_groups σ system)) = Some new_group →
  new_group ≤ 31 ∧ unoccupied σ system new_group.
Proof. intros Hnext%next_iter_elem. by apply elem_of_free_groups. Qed.

(** The run of [evaluateInContext] once the group is known. *)
Lemma evaluateInContext_run self context σ cv new_group :
  σ !! self = Some cv → forceGroup cv ≤ 31 → live σ (getSystem context) →
  next_iter (free_groups (occupied_groups σ (getSystem context))) = Some new_group →
  evaluateInContext self context σ =
    match potential_energy (simulation context) (getSystem context)
            (<[self := in_group cv new_group]> σ) {[new_group]} with
    | inr energy =>
        (inr (mkQuantity (_in_md_units energy) (default dimensionless (_unit cv))), σ)
    | inl e => (inl e, <[self := in_group cv new_group]> σ)
    end.
Proof.
  intros Hself Hold Hlive Hnext.
  destruct (next_free_group _ _ _ Hnext) as [Hnew _]. unfold evaluateInContext.
  rewrite (bind_inr _ _ _ _ _ (comprehension_groups_live _ _ Hlive)).
  rewrite (bind_inr _ _ _ _ _ (getForceGroup_live _ _ _ Hself)).
  unfold first_of. rewrite Hnext. rewrite (bind_inr _ _ σ new_group σ eq_refl).
  rewrite (bind_inr _ _ _ _ _ (setForceGroup_live _ _ _ _ Hself Hnew)).
  unfold bind at 1, getPotentialEnergy.
  destruct (potential_energy _ _ _ _) as [e|energy]; [done|].
  rewrite (bind_inr _ _ _ _ _
             (setForceGroup_live _ _ _ _ (lookup_insert_eq _ _ _) Hold)).
  rewrite insert_insert_eq, in_group_twice, in_group_same, (insert_id _ _ _ Hself).
  by rewrite (bind_inr _ _ _ _ _ (getUnit_live _ _ _ Hself)).
Qed.

Lemma evaluateInContext_stop self context σ cv :
  σ !! self = Some cv → live σ (getSystem context) →
  next_iter (free_groups (occupied_groups σ (getSystem context))) = None →
  evaluateInContext self context σ = (inl StopIteration, σ).
Proof.
  intros Hself Hlive Hnext. unfold evaluateInContext.
  rewrite (bind_inr _ _ _ _ _ (comprehension_groups_live _ _ Hlive)).
  rewrite (bind_inr _ _ _ _ _ (getForceGroup_live _ _ _ Hself)).
  apply bind_inl. unfold first_of. by rewrite Hnext.
Qed.

Lemma length_occupied_groups σ system :
  length (occupied_groups σ system) ≤ length system.
Proof.
  unfold occupied_groups. induction system as [|l system IH]; simpl; [done|].
  destruct (forceGroup <$> σ !! l); simpl;
    [apply le_n_S|apply Nat.le_le_succ_r]; exact IH.
Qed.

(** Fewer than 32 forces cannot fill the 32 groups. *)
Lemma free_group_of_small_system σ system :
  length system < 32 → free_groups (occupied_groups σ system) ≠ ∅.
Proof.
  intros Hsmall Hempty.
  assert (seq 0 32 ⊆+ occupied_groups σ system) as Hsub.
  { apply NoDup_submseteq; [apply NoDup_seq|]. intros group Hgroup%elem_of_seq.
    destruct (decide (group ∈ occupied_groups σ system)) as [|Hout]; [done|].
    assert (group ∈ free_groups (occupied_groups σ system)) as Hfree.
    { unfold free_groups. apply elem_of_difference.
      rewrite !elem_of_list_to_set, elem_of_seq. split; [lia|done]. }
    rewrite Hempty in Hfree. by apply not_elem_of_empty in Hfree. }
  apply submseteq_length in Hsub. rewrite length_seq in Hsub.
  pose proof (length_occupied_groups σ system). lia.
Qed.

(** X1.  When the engine refuses the energy query, [evaluateInContext]
    lets the exception through without moving the variable back:
    the variable is left in the temporary group, which no force of
    the system was in, so a variable of the system is left in a
    group other than its own. *)
Theorem evaluateInContext_engine_failure_leaves_group self context σ cv e σ' :
  σ !! self = Some cv →
  forceGroup cv ≤ 31 →
  live σ (getSystem context) →
  evaluateInContext self context σ = (inl e, σ') →
  raised_by_engine e = true →
  ∃ new_group,
    new_group ≤ 31 ∧ unoccupied σ (getSystem context) new_group ∧
    σ' = <[self := in_group cv new_group]> σ ∧
    forceGroup <$> σ' !! self = Some new_group ∧
    (self ∈ getSystem context → new_group ≠ forceGroup cv).
Proof.
  intros Hself Hold Hlive Hrun Hengine.
  destruct (next_iter (free_groups (occupied_groups σ (getSystem context))))
    as [new_group|] eqn:Hnext.
  - destruct (next_free_group _ _ _ Hnext) as [Hnew Hfree].
    rewrite (evaluateInContext_run _ _ _ _ _ Hself Hold Hlive Hnext) in Hrun.
    destruct (potential_energy _ _ _ _) as [e'|energy]; [|done].
    injection Hrun as -> <-. exists new_group.
    split; [done|]. split; [done|]. split; [done|].
    split; [by rewrite lookup_insert_eq|].
    intros Hin Heq. by eapply Hfree.
  - rewrite (evaluateInContext_stop _ _ _ _ Hself Hlive Hnext) in Hrun.
    injection Hrun as <- _. done.
Qed.

(** X2.  In the store on which the engine is asked for the energy of the
    temporary group, the forces of the system in that group are the
    variable itself and no other: the energy reported is that of the
    variable alone, and of nothing when the variable is not a force
    of the system. *)
Theorem evaluateInContext_queries_self_alone self context σ cv :
  σ !! self = Some cv →
  forceGroup cv ≤ 31 →
  live σ (getSystem context) →
  (∃ group, group ≤ 31 ∧ unoccupied σ (getSystem context) group) →
  ∃ new_group,
    let moved := <[self := in_group cv new_group]> σ in
    evaluateInContext self context σ =
      match potential_energy (simulation context) (getSystem context)
              moved {[new_group]} with
      | inr energy =>
          (inr (mkQuantity (_in_md_units energy) (default dimensionless (_unit cv))), σ)
      | inl e => (inl e, moved)
      end ∧
    (∀ l f, l ∈ getSystem context → moved !! l = Some f →
       forceGroup f ∈ ({[new_group]} : gset nat) ↔ l = self) ∧
    (self ∈ getSystem context → new_group ≠ forceGroup cv).
Proof.
  intros Hself Hold Hlive (group & Hle & Hgroup).
  destruct (next_iter (free_groups (occupied_groups σ (getSystem context))))
    as [new_group|] eqn:Hnext; last first.
  { apply next_iter_stop in Hnext.
    assert (group ∈ free_groups (occupied_groups σ (getSystem context))) as Hin
      by by apply elem_of_free_groups.
    rewrite Hnext in Hin. by apply not_elem_of_empty in Hin. }
  destruct (next_free_group _ _ _ Hnext) as [Hnew Hfree].
  exists new_group. cbv zeta. split; [by apply evaluateInContext_run|]. split.
  - intros l f Hl Hf. rewrite elem_of_singleton.
    destruct (decide (l = self)) as [->|Hne].
    + rewrite lookup_insert_eq in Hf. injection Hf as <-. done.
    + rewrite lookup_insert_ne in Hf by done. split; [|done].
      intros Hg. by destruct (Hfree l f Hl Hf).
  - intros Hin Heq. by eapply Hfree.
Qed.

(** X3.  A system of fewer than 32 forces always leaves a group free:
    [evaluateInContext] then never stops for want of a group, and
    its outcome is the engine's. *)
Theorem evaluateInContext_small_system self context σ cv :
  σ !! self = Some cv →
  forceGroup cv ≤ 31 →
  live σ (getSystem context) →
  length (getSystem context) < 32 →
  ∃ new_group,
    first_of (free_groups (occupied_groups σ (getSystem context))) σ = (inr new_group, σ) ∧
    evaluateInContext self context σ =
      match potential_energy (simulation context) (getSystem context)
              (<[self := in_group cv new_group]> σ) {[new_group]} with
      | inr energy =>
          (inr (mkQuantity (_in_md_units energy) (default dimensionless (_unit cv))), σ)
      | inl e => (inl e, <[self := in_group cv new_group]> σ)
      end.
Proof.
  intros Hself Hold Hlive Hsmall.
  destruct (next_iter (free_groups (occupied_groups σ (getSystem context))))
    as [new_group|] eqn:Hnext.
  - exists new_group. split; [unfold first_of; by rewrite Hnext|].
    by apply evaluateInContext_run.
  - apply next_iter_stop in Hnext. by apply free_group_of_small_system in Hnext.
Qed.

(** X4.  The choice of a temporary group stops with [StopIteration]
    exactly when every group 0..31 holds a force of the system. *)
Theorem selection_stops_iff_exhausted σ system :
  first_of (free_groups (occupied_groups σ system)) σ = (inl StopIteration, σ) ↔
  exhausted σ system.
Proof.
  split.
  - intros Hstop group Hle.
    destruct (decide (group ∈ occupied_groups σ system)) as [Hin|Hout];
      [by apply elem_of_occupied_groups in Hin|].
    unfold first_of in Hstop.
    destruct (next_iter _) as [g|] eqn:Hnext; [done|].
    apply next_iter_stop in Hnext.
    assert (group ∈ free_groups (occupied_groups σ system)) as Hfree.
    { unfold free_groups. apply elem_of_difference.
      rewrite !elem_of_list_to_set, elem_of_seq. split; [lia|done]. }
    rewrite Hnext in Hfree. by apply not_elem_of_empty in Hfree.
  - intros Hfull. unfold first_of. rewrite (free_groups_exhausted _ _ Hfull).
    destruct (next_iter ∅) as [group|] eqn:Hnext; [|done].
    apply next_iter_elem in Hnext. by apply not_elem_of_empty in Hnext.
Qed.

(** X5.  Of two calls of [setUnit], the later one decides: the unit read
    back and the store are those of the second call alone. *)
Theorem setUnit_last_wins self σ cv u1 u2 :
  σ !! self = Some cv →
  (_ <- setUnit self u1;; _ <- setUnit self u2;; getUnit self) σ =
  (_ <- setUnit self u2;; getUnit self) σ.
Proof.
  intros Hself. unfold setUnit.
  rewrite (bind_inr _ _ (A:=()) σ ()
             (<[self := {| forceGroup := forceGroup cv; _unit := Some u1;
                           body := body cv |}]> σ))
    by (by rewrite (bind_inr _ _ _ _ _ (deref_live _ _ _ Hself))).
  rewrite (bind_inr _ (λ _, getUnit self) (A:=())
             (<[self := {| forceGroup := forceGroup cv; _unit := Some u1;
                           body := body cv |}]> σ) ()
             (<[self := {| forceGroup := forceGroup cv; _unit := Some u2;
                           body := body cv |}]> σ)); last first.
  { rewrite (bind_inr _ _ _ _ _ (deref_live _ _ _ (lookup_insert_eq _ _ _))).
    simpl. by rewrite insert_insert_eq. }
  by rewrite (bind_inr _ (λ _, getUnit self) (A:=()) σ ()
             (<[self := {| forceGroup := forceGroup cv; _unit := Some u2;
                           body := body cv |}]> σ))
    by (by rewrite (bind_inr _ _ _ _ _ (deref_live _ _ _ Hself))).
Qed.
End cvlib_more.

(** ** [RadiusOfGyration]: edge case and evaluation *)

Section radius_of_gyration_more.
Import Cvlib.
Context `{Engine} `{SetIter}.
Implicit Types (σ : Store) (self : loc) (context : Context).

(** X7.  [RadiusOfGyration([])] does not raise.  It builds a force with
    one group per bond, that group empty, one bond over it, and the
    expression [sqrt(()/0)]: the empty sum and the division by the
    number of atoms are written out as they come. *)
Theorem RadiusOfGyration_of_no_atoms σ :
  RadiusOfGyration [] σ =
    (inr (fresh (dom σ)),
     <[fresh (dom σ) :=
         {| forceGroup := 0; _unit := Some nanometers;
            body := CustomCentroidBondForce
              {| numGroupsPerBond := 1;
                 energyFunction := "sqrt(()/0)";
                 groups := [([], [])];
                 bonds := [([0], [])];
                 usesPeriodicBoundaryConditions := false |} |}]> σ).
Proof.
  rewrite RadiusOfGyration_run; [done|]. split; [constructor|done].
Qed.

(** X6.  A radius of gyration that has just been built from atom
    indices the engine accepts, evaluated in a context: the engine is
    asked for the energy of the group the new force has been moved
    to, and the value of that energy in the engine's MD unit system
    comes back in nanometers; the store is then the one the
    constructor left, the new force in group 0. *)
Theorem RadiusOfGyration_evaluates_in_nanometers atoms context σ :
  engine_ints atoms →
  let self := fresh (dom σ) in
  let σ1 := (RadiusOfGyration atoms σ).2 in
  live σ1 (getSystem context) →
  (∃ group, group ≤ 31 ∧ unoccupied σ1 (getSystem context) group) →
  ∃ new_group rg,
    σ1 !! self = Some rg ∧ forceGroup rg = 0 ∧
    (rg <- RadiusOfGyration atoms;; evaluateInContext rg context) σ =
      match potential_energy (simulation context) (getSystem context)
              (<[self := in_group rg new_group]> σ1) {[new_group]} with
      | inr energy => (inr (mkQuantity (value_in_md_unit_system energy) nanometers), σ1)
      | inl e => (inl e, <[self := in_group rg new_group]> σ1)
      end.
Proof.
  intros Hints self σ1 Hlive (group & Hle & Hgroup).
  destruct (next_iter (free_groups (occupied_groups σ1 (getSystem context))))
    as [new_group|] eqn:Hnext; last first.
  { apply next_iter_stop in Hnext.
    assert (group ∈ free_groups (occupied_groups σ1 (getSystem context))) as Hin
      by by apply elem_of_free_groups.
    rewrite Hnext in Hin. by apply not_elem_of_empty in Hin. }
  revert Hlive Hgroup Hnext. unfold σ1.
  rewrite (RadiusOfGyration_run σ atoms Hints). fold self. simpl.
  set (rg := {| forceGroup := 0; _unit := Some nanometers; body := _ |}).
  intros Hlive Hgroup Hnext.
  exists new_group, rg. split; [apply lookup_insert_eq|]. split; [done|].
  rewrite (bind_inr _ _ _ _ _ (RadiusOfGyration_run σ atoms Hints)). fold self rg.
  rewrite (evaluateInContext_run self context (<[self := rg]> σ) rg new_group);
    [done|apply lookup_insert_eq|simpl; lia|done|done].
Qed.
End radius_of_gyration_more.

(** ** The further properties of cvlib on the reference engines *)

Section cvlib_more_reference.
Import Cvlib Reference.

Lemma evaluateInContext_engine_failure_leaves_group_witness :
  ∃ new_group,
    new_group ≤ 31 ∧
    unoccupied (crowded 3) (getSystem (crowded_without_positions 3)) new_group ∧
    (evaluateInContext 1%positive (crowded_without_positions 3) (crowded 3)).2 =
      <[1%positive := in_group (plain_force 0) new_group]> (crowded 3) ∧
    forceGroup <$>
      (evaluateInContext 1%positive (crowded_without_positions 3) (crowded 3)).2
        !! 1%positive = Some new_group ∧
    (1%positive ∈ getSystem (crowded_without_positions 3) →
     new_group ≠ forceGroup (plain_force 0)).
Proof.
  apply (evaluateInContext_engine_failure_leaves_group (H:=without_positions)
           1%positive (crowded_without_positions 3) (crowded 3) (plain_force 0)
           (OpenMMException "Particle positions have not been set")).
  - vm_compute. reflexivity.
  - simpl. lia.
  - apply live_by_computation. vm_compute. reflexivity.
  - vm_compute. reflexivity.
  - reflexivity.
Defined.

Lemma evaluateInContext_queries_self_alone_witness :
  ∃ new_group,
    let moved := <[1%positive := in_group (plain_force 0) new_group]> (crowded 3) in
    evaluateInContext 1%positive (crowded_context 3) (crowded 3) =
      match potential_energy (simulation (crowded_context 3))
              (getSystem (crowded_context 3)) moved {[new_group]} with
      | inr energy =>
          (inr (mkQuantity (_in_md_units energy) dimensionless), crowded 3)
      | inl e => (inl e, moved)
      end ∧
    (∀ l f, l ∈ getSystem (crowded_context 3) → moved !! l = Some f →
       forceGroup f ∈ ({[new_group]} : gset nat) ↔ l = 1%positive) ∧
    (1%positive ∈ getSystem (crowded_context 3) →
     new_group ≠ forceGroup (plain_force 0)).
Proof.
  apply (evaluateInContext_queries_self_alone
           1%positive (crowded_context 3) (crowded 3) (plain_force 0)).
  - vm_compute. reflexivity.
  - simpl. lia.
  - apply live_by_computation. vm_compute. reflexivity.
  - exists 7. split; [lia|]. apply unoccupied_by_computation. vm_compute. reflexivity.
Defined.

Lemma evaluateInContext_small_system_witness :
  ∃ new_group,
    first_of (free_groups (occupied_groups (crowded 3) (getSystem (crowded_context 3))))
      (crowded 3) = (inr new_group, crowded 3) ∧
    evaluateInContext 1%positive (crowded_context 3) (crowded 3) =
      match potential_energy (simulation (crowded_context 3))
              (getSystem (crowded_context 3))
              (<[1%positive := in_group (plain_force 0) new_group]> (crowded 3))
              {[new_group]} with
      | inr energy =>
          (inr (mkQuantity (_in_md_units energy) dimensionless), crowded 3)
      | inl e => (inl e, <[1%positive := in_group (plain_force 0) new_group]> (crowded 3))
      end.
Proof.
  apply (evaluateInContext_small_system
           1%positive (crowded_context 3) (crowded 3) (plain_force 0)).
  - vm_compute. reflexivity.
  - simpl. lia.
  - apply live_by_computation. vm_compute. reflexivity.
  - simpl. lia.
Defined.

Lemma setUnit_last_wins_witness :
  (_ <- setUnit 1%positive kilojoules_per_mole;; _ <- setUnit 1%positive nanometers;;
   getUnit 1%positive) (crowded 3) =
  (_ <- setUnit 1%positive nanometers;; getUnit 1%positive) (crowded 3).
Proof.
  apply (setUnit_last_wins 1%positive (crowded 3) (plain_force 0)
           kilojoules_per_mole nanometers).
  vm_compute. reflexivity.
Defined.

Lemma RadiusOfGyration_evaluates_in_nanometers_witness :
  ∃ new_group rg,
    (RadiusOfGyration [0%Z; 1%Z] (crowded 2)).2 !! fresh (dom (crowded 2)) = Some rg ∧
    forceGroup rg = 0 ∧
    (rg <- RadiusOfGyration [0%Z; 1%Z];; evaluateInContext rg (crowded_context 3))
      (crowded 2) =
      match potential_energy (simulation (crowded_context 3))
              (getSystem (crowded_context 3))
              (<[fresh (dom (crowded 2)) := in_group rg new_group]>
                 (RadiusOfGyration [0%Z; 1%Z] (crowded 2)).2) {[new_group]} with
      | inr energy =>
          (inr (mkQuantity (value_in_md_unit_system energy) nanometers),
           (RadiusOfGyration [0%Z; 1%Z] (crowded 2)).2)
      | inl e =>
          (inl e, <[fresh (dom (crowded 2)) := in_group rg new_group]>
                    (RadiusOfGyration [0%Z; 1%Z] (crowded 2)).2)
      end.
Proof.
  apply (RadiusOfGyration_evaluates_in_nanometers
           [0%Z; 1%Z] (crowded_context 3) (crowded 2)).
  - split; [|simpl; lia]. repeat constructor; unfold fits_int; lia.
  - apply live_by_computation. vm_compute. reflexivity.
  - exists 7. split; [lia|]. apply unoccupied_by_computation. vm_compute. reflexivity.
Defined.
End cvlib_more_reference.

(** ** [OpenMMForceWrapper]: failures, frame and class state *)

Section cvpack_more.
Import Cvpack.
Context `{Host}.
Implicit Types (w : World) (l self force p : loc) (cls : PyClass).

Lemma serialize_engine_object w force f0 :
  engine_object w force = Some f0 →
  (XmlSerializer_serialize force w).1 = xml_serialize f0.
Proof.
  unfold engine_object, XmlSerializer_serialize, bind, deref, get, lift.
  destruct (heap w !! force) as [o|]; [|done].
  destruct (ob_dict o !! "this") as [[p| | |]|]; try done.
  by intros ->.
Qed.

(** Allocating the new instance does not change what the argument
    denotes. *)
Lemma document_alloc w openmmForce o' :
  live_arg w openmmForce →
  document openmmForce {| heap := <[fresh (dom (heap w)) := o']> (heap w);
                          engine := engine w; wrapper_bases := wrapper_bases w |}
  = document openmmForce w.
Proof.
  destruct openmmForce as [force|s]; [|done]. simpl. intros [o Hforce].
  unfold XmlSerializer_serialize, bind, deref, get. simpl.
  rewrite lookup_insert_ne by (by eapply fresh_heap_ne). rewrite Hforce.
  destruct (ob_dict o !! "this") as [[p| | |]|]; try done.
  cbn [engine]. by destruct (engine w !! p).
Qed.

Lemma document_force_object w force xml :
  document (force_object force) w = inr xml ↔
  ∃ f0, engine_object w force = Some f0 ∧ xml_serialize f0 = inr xml.
Proof.
  split.
  - apply XmlSerializer_serialize_engine_object.
  - intros (f0 & Hobj & Hxml). simpl. by rewrite (serialize_engine_object _ _ _ Hobj).
Qed.

Lemma engine_object_live w force f0 :
  engine_object w force = Some f0 → is_Some (heap w !! force).
Proof. unfold engine_object. destruct (heap w !! force); [by eexists|done]. Qed.

(** The constructor's outcome, for an argument the caller holds. *)
Lemma OpenMMForceWrapper_outcome_live openmmForce unit period w :
  live_arg w openmmForce →
  let self := fresh (dom (heap w)) in
  let h1 := <[self := {| ob_class := C_OpenMMForceWrapper; ob_dict := ∅ |}]> (heap w) in
  let w1 := {| heap := h1; engine := engine w; wrapper_bases := wrapper_bases w |} in
  OpenMMForceWrapper openmmForce unit period w =
    match document openmmForce w with
    | inl e => (inl e, w1)
    | inr xml =>
        match xml_deserialize xml with
        | inl e => (inl e, w1)
        | inr f =>
            let p := fresh (dom (engine w)) in
            let copy := fresh (dom h1) in
            let cls := C_engine (type_name f) in
            let h2 := <[copy := {| ob_class := cls; ob_dict := {["this" := VThis p]} |}]> h1 in
            if decide (NoDup (wrapper_bases w ++ [cls]))
            then
              if force_type (type_name f)
              then (inr self,
                    {| heap := <[self := {| ob_class := C_OpenMMForceWrapper;
                                            ob_dict := wrapper_dict p unit period |}]> h2;
                       engine := <[p := f]> (engine w);
                       wrapper_bases := wrapper_bases w ++ [cls] |})
              else (inl (TypeError "the object is not a Force"),
                    {| heap := <[self := {| ob_class := C_OpenMMForceWrapper;
                                            ob_dict := {["this" := VThis p]} ∪ ∅ |}]> h2;
                       engine := <[p := f]> (engine w);
                       wrapper_bases := wrapper_bases w ++ [cls] |})
            else (inl (TypeError "duplicate base class"),
                  {| heap := <[self := {| ob_class := C_OpenMMForceWrapper;
                                          ob_dict := {["this" := VThis p]} ∪ ∅ |}]> h2;
                     engine := <[p := f]> (engine w);
                     wrapper_bases := wrapper_bases w |})
        end
    end.
Proof.
  intros Hlive. cbv zeta. rewrite OpenMMForceWrapper_outcome. cbv zeta.
  by rewrite document_alloc.
Qed.

(** Whatever the outcome, a construction only adds: objects and
    engine objects stay as they are, and the bases of the class can
    only have gained a last element. *)
Lemma construction_frame openmmForce unit period w :
  let w' := (OpenMMForceWrapper openmmForce unit period w).2 in
  (∀ l o, heap w !! l = Some o → heap w' !! l = Some o) ∧
  (∀ p f, engine w !! p = Some f → engine w' !! p = Some f) ∧
  (∀ cls, cls ∈ wrapper_bases w → cls ∈ wrapper_bases w').
Proof.
  cbv zeta. rewrite OpenMMForceWrapper_outcome. cbv zeta.
  set (self := fresh (dom (heap w))).
  set (h1 := <[self := {| ob_class := C_OpenMMForceWrapper; ob_dict := ∅ |}]> (heap w)).
  assert (∀ l o, heap w !! l = Some o → h1 !! l = Some o) as Hh1.
  { intros l o Hl. unfold h1. rewrite lookup_insert_ne; [done|]. by eapply fresh_heap_ne. }
  assert (∀ l o o1 o2, heap w !! l = Some o →
            <[self := o1]> (<[fresh (dom h1) := o2]> h1) !! l = Some o) as Hh2.
  { intros l o o1 o2 Hl. rewrite lookup_insert_ne by (by eapply fresh_heap_ne).
    rewrite lookup_insert_ne; [by apply Hh1|]. eapply fresh_heap_ne. by apply Hh1. }
  assert (∀ f0 p f, engine w !! p = Some f →
            <[fresh (dom (engine w)) := f0]> (engine w) !! p = Some f) as He.
  { intros f0 p f Hp. rewrite lookup_insert_ne; [done|]. by eapply fresh_heap_ne. }
  destruct (document _ _) as [e|xml]; [done|].
  destruct (xml_deserialize xml) as [e|f]; [done|].
  assert (∀ cls0 cls, cls ∈ wrapper_bases w → cls ∈ wrapper_bases w ++ [cls0]) as Hb.
  { intros cls0 cls Hcls. apply elem_of_app. by left. }
  case_decide; [destruct (force_type (type_name f))|]; simpl;
    (split; [by auto|]); (split; [by auto|]); by auto.
Qed.

Lemma engine_object_mono w w' force f0 :
  (∀ l o, heap w !! l = Some o → heap w' !! l = Some o) →
  (∀ p f, engine w !! p = Some f → engine w' !! p = Some f) →
  engine_object w force = Some f0 → engine_object w' force = Some f0.
Proof.
  intros Hheap Hengine. unfold engine_object.
  destruct (heap w !! force) as [o|] eqn:Hforce; [|done].
  rewrite (Hheap _ _ Hforce).
  destruct (ob_dict o !! "this") as [[p| | |]|]; try done. apply Hengine.
Qed.

Lemma ancestors_mono depth w w' c d :
  (∀ cls, cls ∈ wrapper_bases w → cls ∈ wrapper_bases w') →
  d ∈ ancestors depth w c → d ∈ ancestors depth w' c.
Proof.
  intros Hbases. revert c. induction depth as [|depth IH]; intros c; simpl; [done|].
  rewrite !elem_of_cons. intros [->|Hd]; [by left|]. right.
  apply list_elem_of_In, in_flat_map in Hd as (b & Hb & Hd).
  apply list_elem_of_In, in_flat_map. exists b. split.
  - destruct c; try done. simpl in *. by apply list_elem_of_In, Hbases, list_elem_of_In.
  - by apply list_elem_of_In, IH, list_elem_of_In.
Qed.

(** X8.  Given a force object, the constructor serializes it and goes on
    as if it had been given the text: both calls end in the same
    value and the same world. *)
Theorem force_object_or_its_xml force unit period w xml :
  document (force_object force) w = inr xml →
  OpenMMForceWrapper (force_object force) unit period w =
  OpenMMForceWrapper (xml_text xml) unit period w.
Proof.
  intros Hdoc.
  assert (live_arg w (force_object force)) as Hlive.
  { apply document_force_object in Hdoc as (f0 & Hobj & _).
    by eapply engine_object_live. }
  rewrite (OpenMMForceWrapper_outcome_live (force_object force)) by done.
  rewrite (OpenMMForceWrapper_outcome_live (xml_text xml)) by done.
  cbv zeta. by rewrite Hdoc.
Qed.

(** X9.  When the force cannot be serialized, or the text cannot be
    deserialized, the constructor ends in the exception it got,
    unchanged.  The bases of the class and the engine's objects are
    then as before, and so is every object that existed. *)
Theorem failed_serialization_propagates openmmForce unit period w e :
  live_arg w openmmForce →
  (document openmmForce w = inl e ∨
   ∃ xml, document openmmForce w = inr xml ∧ xml_deserialize xml = inl e) →
  let run := OpenMMForceWrapper openmmForce unit period w in
  run.1 = inl e ∧
  wrapper_bases run.2 = wrapper_bases w ∧
  engine run.2 = engine w ∧
  (∀ l o, heap w !! l = Some o → heap run.2 !! l = Some o).
Proof.
  intros Hlive Hfail run.
  split; [|split; [|split]]; [..|apply construction_frame];
    unfold run; rewrite OpenMMForceWrapper_outcome_live by done; cbv zeta;
    destruct Hfail as [->|(xml & -> & ->)]; done.
Qed.

(** X10.  Once a force of some engine type has been wrapped, the class of
    that type is among the bases of [OpenMMForceWrapper], and Python
    refuses to add it again: wrapping a second force of the same
    type, or the same force again, ends in [TypeError].  The bases
    stay as they were; the copy made for the second wrapper had
    already been created and stays behind. *)
Theorem second_wrapper_of_a_type_fails
    force1 force2 unit1 period1 unit2 period2 w self w' f1 f2 xml2 :
  engine_object w force1 = Some f1 →
  engine_object w force2 = Some f2 →
  type_name f2 = type_name f1 →
  xml_serialize f2 = inr xml2 →
  OpenMMForceWrapper (force_object force1) unit1 period1 w = (inr self, w') →
  let run := OpenMMForceWrapper (force_object force2) unit2 period2 w' in
  run.1 = inl (TypeError "duplicate base class") ∧
  wrapper_bases run.2 = wrapper_bases w' ∧
  ∃ p, engine w' !! p = None ∧ is_Some (engine run.2 !! p).
Proof.
  intros Hf1 Hf2 Hname Hxml2 Hrun run.
  pose proof (construction_frame (force_object force1) unit1 period1 w) as Hframe.
  rewrite Hrun in Hframe. cbv zeta in Hframe. simpl in Hframe.
  destruct Hframe as (Hheap & Hengine & _).
  pose proof (engine_object_mono _ _ _ _ Hheap Hengine Hf2) as Hf2'.
  apply OpenMMForceWrapper_returns in Hrun
    as (xml1 & f1' & (f0 & Hf0 & Hxml1) & Hde1 & _ & _ & Hw').
  assert (f0 = f1) as -> by congruence.
  destruct (xml_copy _ _ Hxml1) as (f1'' & Hde1' & Hname1).
  assert (f1'' = f1') as -> by congruence.
  assert (C_engine (type_name f1) ∈ wrapper_bases w') as Hbase.
  { rewrite Hw'. simpl. apply elem_of_app. right. apply list_elem_of_singleton.
    by rewrite Hname1. }
  destruct (xml_copy _ _ Hxml2) as (f2' & Hde2 & Hname2).
  assert (document (force_object force2) w' = inr xml2) as Hdoc
    by (apply document_force_object; by exists f2).
  unfold run.
  rewrite (OpenMMForceWrapper_outcome_live (force_object force2))
    by (by eapply engine_object_live).
  cbv zeta. rewrite Hdoc, Hde2.
  rewrite decide_False; last first.
  { intros Hdup. apply NoDup_app in Hdup as (_ & Hdup & _).
    apply (Hdup _ Hbase). apply list_elem_of_singleton. by rewrite Hname2, Hname. }
  simpl. split; [done|]. split; [done|].
  exists (fresh (dom (engine w'))). split; [apply fresh_heap_lookup|].
  rewrite lookup_insert_eq. by eexists.
Qed.

(** X11.  No construction, whatever its outcome, takes a type away from an
    object: what was an instance of a class still is. *)
Theorem construction_keeps_instances openmmForce unit period w l cls :
  isinstance w l cls = true →
  isinstance (OpenMMForceWrapper openmmForce unit period w).2 l cls = true.
Proof.
  destruct (construction_frame openmmForce unit period w) as (Hheap & _ & Hbases).
  unfold isinstance, issubclass. destruct (heap w !! l) as [o|] eqn:Hl; [|done].
  rewrite (Hheap _ _ Hl). intros Hin%bool_decide_eq_true.
  apply bool_decide_eq_true_2. by eapply ancestors_mono.
Qed.

(** X12.  The constructor returns only if the argument yields a
    text, the text deserializes, and the class of the object it
    yields is not yet among the bases of [OpenMMForceWrapper].  Once
    it has returned that class is among them, so that a construction
    that follows and returns has deserialized an object of another
    type. *)
Theorem construction_returns_only_if openmmForce unit period w self w' :
  OpenMMForceWrapper openmmForce unit period w = (inr self, w') →
  ∃ xml f,
    source_of w openmmForce xml ∧ xml_deserialize xml = inr f ∧
    (C_engine (type_name f) ∉ wrapper_bases w) ∧
    C_engine (type_name f) ∈ wrapper_bases w' ∧
    ∀ openmmForce2 unit2 period2 self2 w'',
      OpenMMForceWrapper openmmForce2 unit2 period2 w' = (inr self2, w'') →
      ∃ xml2 f2,
        source_of w' openmmForce2 xml2 ∧ xml_deserialize xml2 = inr f2 ∧
        type_name f2 ≠ type_name f.
Proof.
  intros Hrun.
  apply OpenMMForceWrapper_returns in Hrun as (xml & f & Hsrc & Hxml & Hdup & _ & ->).
  exists xml, f. split; [done|]. split; [done|].
  assert (C_engine (type_name f) ∈ wrapper_bases w ++ [C_engine (type_name f)]) as Hin.
  { apply elem_of_app. right. by apply list_elem_of_singleton. }
  split; [|split; [done|]].
  - apply NoDup_app in Hdup as (_ & Hdup & _). intros Hold.
    apply (Hdup _ Hold). by apply list_elem_of_singleton.
  - intros openmmForce2 unit2 period2 self2 w'' Hrun2.
    apply OpenMMForceWrapper_returns in Hrun2 as (xml2 & f2 & Hsrc2 & Hxml2 & Hdup2 & _).
    exists xml2, f2. split; [done|]. split; [done|]. intros Hname.
    cbn [wrapper_bases] in Hdup2.
    apply NoDup_app in Hdup2 as (_ & Hdup2 & _).
    apply (Hdup2 _ Hin). apply list_elem_of_singleton. by rewrite Hname.
Qed.
End cvpack_more.

(** ** The further properties of cvpack on the reference host *)

Section cvpack_more_reference.
Import Cvpack ReferenceHost.

Lemma force_object_or_its_xml_witness :
  OpenMMForceWrapper (force_object 1%positive) radian (Some two_pi) two_angles =
  OpenMMForceWrapper (xml_text "CustomAngleForce") radian (Some two_pi) two_angles.
Proof.
  apply (force_object_or_its_xml 1%positive radian (Some two_pi) two_angles).
  vm_compute. reflexivity.
Defined.

Lemma failed_serialization_propagates_witness :
  let run := OpenMMForceWrapper (xml_text "") radian None two_angles in
  run.1 = inl (OpenMMException "empty document") ∧
  wrapper_bases run.2 = wrapper_bases two_angles ∧
  engine run.2 = engine two_angles ∧
  (∀ l o, heap two_angles !! l = Some o → heap run.2 !! l = Some o).
Proof.
  apply (failed_serialization_propagates (xml_text "") radian None two_angles).
  - exact I.
  - right. exists "". split; vm_compute; reflexivity.
Defined.

Lemma second_wrapper_of_a_type_fails_witness :
  let run := OpenMMForceWrapper (force_object 2%positive) radian None first_wrapper.2 in
  run.1 = inl (TypeError "duplicate base class") ∧
  wrapper_bases run.2 = wrapper_bases first_wrapper.2 ∧
  ∃ p, engine first_wrapper.2 !! p = None ∧ is_Some (engine run.2 !! p).
Proof.
  apply (second_wrapper_of_a_type_fails
           1%positive 2%positive radian (Some two_pi) radian None two_angles
           3%positive first_wrapper.2 "CustomAngleForce" "CustomAngleForce"
           "CustomAngleForce").
  - vm_compute. reflexivity.
  - vm_compute. reflexivity.
  - reflexivity.
  - vm_compute. reflexivity.
  - vm_compute. reflexivity.
Defined.

Lemma construction_keeps_instances_witness :
  isinstance first_wrapper.2 1%positive C_Force = true.
Proof.
  apply (construction_keeps_instances
           (force_object 1%positive) radian (Some two_pi) two_angles 1%positive C_Force).
  vm_compute. reflexivity.
Defined.

Lemma construction_returns_only_if_witness :
  ∃ xml f,
    source_of two_angles (force_object 1%positive) xml ∧ xml_deserialize xml = inr f ∧
    (C_engine (type_name f) ∉ wrapper_bases two_angles) ∧
    C_engine (type_name f) ∈ wrapper_bases first_wrapper.2 ∧
    ∀ openmmForce2 unit2 period2 self2 w'',
      OpenMMForceWrapper openmmForce2 unit2 period2 first_wrapper.2 = (inr self2, w'') →
      ∃ xml2 f2,
        source_of first_wrapper.2 openmmForce2 xml2 ∧ xml_deserialize xml2 = inr f2 ∧
        type_name f2 ≠ type_name f.
Proof.
  apply (construction_returns_only_if
           (force_object 1%positive) radian (Some two_pi) two_angles 3%positive
           first_wrapper.2).
  vm_compute. reflexivity.
Defined.
End cvpack_more_reference.
